(** * mockllm: request matching and mock dispatch

    A shallow embedding of the matching engine of the mock LLM server
    ([compareMessages], [mapContains], [sliceContains]) and of the three
    providers' dispatch ([findMatchingMock], [requestsMatch]), together
    with the part of Go's [encoding/json] the matcher calls. *)

From Stdlib Require Import List Bool Arith Lia ZArith NArith Ascii String.
From Stdlib Require Import DecimalN DecimalZ.
From Stdlib Require OrderedTypeEx.
Import ListNotations.

(** ** Bytes

    A Go [string] is a Rocq [string]; a Go [[]byte] is a [list ascii].
    [bytesOf s] is the conversion [[]byte(s)]. *)

Abbreviation bytes := (list ascii).

Definition bytesOf (s : string) : bytes := list_ascii_of_string s.

Definition ascii_eqb (a b : ascii) : bool := Ascii.eqb a b.

(** [bytes.Equal]. *)
Fixpoint bytes_Equal (a b : bytes) : bool :=
  match a, b with
  | [], [] => true
  | x :: a', y :: b' => ascii_eqb x y && bytes_Equal a' b'
  | _, _ => false
  end.

(** [bytes.HasPrefix]. *)
Fixpoint bytes_HasPrefix (s prefix : bytes) {struct prefix} : bool :=
  match prefix, s with
  | [], _ => true
  | p :: prefix', c :: s' => ascii_eqb c p && bytes_HasPrefix s' prefix'
  | _ :: _, [] => false
  end.

(** [bytes.Contains]: [subslice] occurs somewhere within [b]. *)
Fixpoint bytes_Contains (b subslice : bytes) : bool :=
  bytes_HasPrefix b subslice ||
  match b with
  | [] => false
  | _ :: b' => bytes_Contains b' subslice
  end.

(** [strings.Contains]. *)
Definition strings_Contains (s substr : string) : bool :=
  bytes_Contains (bytesOf s) (bytesOf substr).

(** ** Values

    The dynamic values [compareMessages] works on: what a Go [any] holds
    after [json.Unmarshal] ([nil], [bool], [float64], [string],
    [map[string]any], [[]any]).  A vendor message, whose SDK type is
    declared outside the repository, is taken as the value its JSON form
    decodes to.

    Numbers are the integer-valued [float64]s, negative zero among them,
    written in plain decimal, which is Go's text for them below 1e21 in
    magnitude; fractions and the exponent form are left out.  A map
    is the list of its entries; a Go map has one entry per key and no
    order, and the entries are kept in ascending key order ([wf] below).
    [VUnsupported] stands for a Go value [json.Marshal] rejects (a
    channel, a function, NaN). *)

(** A [float64] that holds an integer.  Zero has a sign: negative zero
    is a number of its own, equal to zero as a number and written [-0]. *)
Inductive Number : Type :=
| Integer (z : Z)
| NegativeZero.

Coercion Integer : Z >-> Number.

Bind Scope Z_scope with Number.

(** The number as [==] on [float64] sees it. *)
Definition numericValue (n : Number) : Z :=
  match n with
  | Integer z => z
  | NegativeZero => 0
  end.

#[local] Unset Elimination Schemes.

Inductive Value : Type :=
| VNull
| VBool (b : bool)
| VNumber (n : Number)
| VString (s : string)
| VObject (m : list (string * Value))
| VArray (l : list Value)
| VUnsupported.

#[local] Set Elimination Schemes.

(** Induction over the nested occurrences. *)
Definition Value_ind' (P : Value -> Prop)
  (fnull : P VNull)
  (fbool : forall b, P (VBool b))
  (fnumber : forall n, P (VNumber n))
  (fstring : forall s, P (VString s))
  (fobject : forall m, Forall (fun kv => P (snd kv)) m -> P (VObject m))
  (farray : forall l, Forall P l -> P (VArray l))
  (funsupported : P VUnsupported) : forall v, P v :=
  fix F (v : Value) : P v :=
    match v with
    | VNull => fnull
    | VBool b => fbool b
    | VNumber n => fnumber n
    | VString s => fstring s
    | VObject m =>
        fobject m ((fix G (m : list (string * Value)) : Forall (fun kv => P (snd kv)) m :=
                      match m with
                      | [] => Forall_nil _
                      | kv :: m' => Forall_cons kv (F (snd kv)) (G m')
                      end) m)
    | VArray l =>
        farray l ((fix G (l : list Value) : Forall P l :=
                     match l with
                     | [] => Forall_nil _
                     | x :: l' => Forall_cons x (F x) (G l')
                     end) l)
    | VUnsupported => funsupported
    end.

(** Map access [m[key]]: the value and whether the key is present. *)
Fixpoint lookup (key : string) (m : list (string * Value)) : option Value :=
  match m with
  | [] => None
  | (k, v) :: m' => if String.eqb key k then Some v else lookup key m'
  end.

(** ** encoding/json: Marshal *)

Definition quote : ascii := ascii_of_N 34.

Definition backslash : ascii := ascii_of_N 92.

Definition hexDigit (n : N) : ascii :=
  ascii_of_N (if (n <? 10)%N then 48 + n else 87 + n)%N.

(** One byte of a string as the encoder writes it (HTML escaping on, as
    [json.Marshal] has it).  Bytes from 128 on are copied: strings are
    taken to be valid UTF-8 without the line and paragraph separators
    U+2028 and U+2029, the only longer sequences Go rewrites (into
    [\u2028] and [\u2029]; a byte that is not UTF-8 it replaces by
    U+FFFD).  On ASCII text, [asciiText] below, this is Go's encoder as
    it stands. *)
Definition escapeByte (c : ascii) : bytes :=
  let n := N_of_ascii c in
  if (n =? 34)%N then [backslash; quote]
  else if (n =? 92)%N then [backslash; backslash]
  else if (n =? 8)%N then bytesOf "\b"
  else if (n =? 12)%N then bytesOf "\f"
  else if (n =? 10)%N then bytesOf "\n"
  else if (n =? 13)%N then bytesOf "\r"
  else if (n =? 9)%N then bytesOf "\t"
  else if ((n <? 32) || (n =? 60) || (n =? 62) || (n =? 38))%N
       then bytesOf "\u00" ++ [hexDigit (n / 16); hexDigit (n mod 16)]
  else [c].

Fixpoint escape (s : string) : bytes :=
  match s with
  | EmptyString => []
  | String c s' => escapeByte c ++ escape s'
  end.

Definition encodeString (s : string) : bytes := quote :: escape s ++ [quote].

Definition digitChar (d : N) : ascii := ascii_of_N (48 + d).

Fixpoint uintBytes (u : Decimal.uint) : bytes :=
  match u with
  | Decimal.Nil => []
  | Decimal.D0 u' => digitChar 0 :: uintBytes u'
  | Decimal.D1 u' => digitChar 1 :: uintBytes u'
  | Decimal.D2 u' => digitChar 2 :: uintBytes u'
  | Decimal.D3 u' => digitChar 3 :: uintBytes u'
  | Decimal.D4 u' => digitChar 4 :: uintBytes u'
  | Decimal.D5 u' => digitChar 5 :: uintBytes u'
  | Decimal.D6 u' => digitChar 6 :: uintBytes u'
  | Decimal.D7 u' => digitChar 7 :: uintBytes u'
  | Decimal.D8 u' => digitChar 8 :: uintBytes u'
  | Decimal.D9 u' => digitChar 9 :: uintBytes u'
  end.

Definition encodeInteger (z : Z) : bytes :=
  match Z.to_int z with
  | Decimal.Pos u => uintBytes u
  | Decimal.Neg u => "-"%char :: uintBytes u
  end.

Definition encodeNumber (n : Number) : bytes :=
  match n with
  | Integer z => encodeInteger z
  | NegativeZero => bytesOf "-0"
  end.

(** All results, or the first error. *)
Fixpoint sequence {A} (l : list (option A)) : option (list A) :=
  match l with
  | [] => Some []
  | None :: _ => None
  | Some x :: l' =>
      match sequence l' with
      | Some xs => Some (x :: xs)
      | None => None
      end
  end.

Fixpoint join (sep : bytes) (parts : list bytes) : bytes :=
  match parts with
  | [] => []
  | [p] => p
  | p :: parts' => p ++ sep ++ join sep parts'
  end.

(** The encoder writes a map's entries sorted by key. *)
Fixpoint insertByKey {A} (x : string * A) (l : list (string * A)) : list (string * A) :=
  match l with
  | [] => [x]
  | y :: l' => if String.leb (fst x) (fst y) then x :: l else y :: insertByKey x l'
  end.

Fixpoint sortByKey {A} (l : list (string * A)) : list (string * A) :=
  match l with
  | [] => []
  | x :: l' => insertByKey x (sortByKey l')
  end.

Definition encodeMember (kv : string * bytes) : bytes :=
  encodeString (fst kv) ++ ":"%char :: snd kv.

Definition sequenceMembers {A} (l : list (string * option A)) : option (list (string * A)) :=
  sequence (map (fun kv => match snd kv with
                           | Some x => Some (fst kv, x)
                           | None => None
                           end) l).

(** [json.Marshal]; [None] is the error return. *)
Fixpoint Marshal (v : Value) : option bytes :=
  match v with
  | VNull => Some (bytesOf "null")
  | VBool true => Some (bytesOf "true")
  | VBool false => Some (bytesOf "false")
  | VNumber n => Some (encodeNumber n)
  | VString s => Some (encodeString s)
  | VObject m =>
      match sequenceMembers (map (fun kv => (fst kv, Marshal (snd kv))) m) with
      | Some fields =>
          Some ("{"%char :: join [","%char] (map encodeMember (sortByKey fields)) ++ ["}"%char])
      | None => None
      end
  | VArray l =>
      match sequence (map Marshal l) with
      | Some items => Some ("["%char :: join [","%char] items ++ ["]"%char])
      | None => None
      end
  | VUnsupported => None
  end.

(** ** encoding/json: Unmarshal

    The decoder for the compact text [Marshal] writes, which is all
    [compareMessages] ever decodes. *)

Definition isDigit (c : ascii) : bool :=
  let n := N_of_ascii c in ((48 <=? n) && (n <=? 57))%N.

Definition hexVal (c : ascii) : option N :=
  let n := N_of_ascii c in
  if ((48 <=? n) && (n <=? 57))%N then Some (n - 48)%N
  else if ((97 <=? n) && (n <=? 102))%N then Some (n - 87)%N
  else if ((65 <=? n) && (n <=? 70))%N then Some (n - 55)%N
  else None.

(** UTF-8 encoding of a code point of the basic plane. *)
Definition utf8 (cp : N) : bytes :=
  if (cp <? 128)%N then [ascii_of_N cp]
  else if (cp <? 2048)%N then
    [ascii_of_N (192 + cp / 64); ascii_of_N (128 + cp mod 64)]
  else
    [ascii_of_N (224 + cp / 4096); ascii_of_N (128 + (cp / 64) mod 64);
     ascii_of_N (128 + cp mod 64)].

Definition hex4 (a b c d : ascii) : option N :=
  match hexVal a, hexVal b, hexVal c, hexVal d with
  | Some x, Some y, Some z, Some w => Some (((x * 16 + y) * 16 + z) * 16 + w)%N
  | _, _, _, _ => None
  end.

Definition unescape (c : ascii) : option ascii :=
  let n := N_of_ascii c in
  if (n =? 34)%N then Some quote
  else if (n =? 92)%N then Some backslash
  else if (n =? 47)%N then Some "/"%char
  else if (n =? 98)%N then Some (ascii_of_N 8)
  else if (n =? 102)%N then Some (ascii_of_N 12)
  else if (n =? 110)%N then Some (ascii_of_N 10)
  else if (n =? 114)%N then Some (ascii_of_N 13)
  else if (n =? 116)%N then Some (ascii_of_N 9)
  else None.

Definition prepend (cs : bytes) (r : option (bytes * bytes)) : option (bytes * bytes) :=
  match r with
  | Some (s, rest) => Some (cs ++ s, rest)
  | None => None
  end.

(** The body of a string literal, after its opening quote: the decoded
    bytes and the input left after the closing quote. *)
Fixpoint parseChars (s : bytes) : option (bytes * bytes) :=
  match s with
  | [] => None
  | c :: s1 =>
      if ascii_eqb c quote then Some ([], s1)
      else if ascii_eqb c backslash then
        match s1 with
        | [] => None
        | e :: s2 =>
            if ascii_eqb e "u"%char then
              match s2 with
              | h1 :: h2 :: h3 :: h4 :: s3 =>
                  match hex4 h1 h2 h3 h4 with
                  | Some cp => prepend (utf8 cp) (parseChars s3)
                  | None => None
                  end
              | _ => None
              end
            else
              match unescape e with
              | Some d => prepend [d] (parseChars s2)
              | None => None
              end
        end
      else prepend [c] (parseChars s1)
  end.

Definition parseString (s : bytes) : option (string * bytes) :=
  match parseChars s with
  | Some (cs, rest) => Some (string_of_list_ascii cs, rest)
  | None => None
  end.

Definition digitOf (c : ascii) (u : Decimal.uint) : Decimal.uint :=
  match N_of_ascii c with
  | 48 => Decimal.D0 u
  | 49 => Decimal.D1 u
  | 50 => Decimal.D2 u
  | 51 => Decimal.D3 u
  | 52 => Decimal.D4 u
  | 53 => Decimal.D5 u
  | 54 => Decimal.D6 u
  | 55 => Decimal.D7 u
  | 56 => Decimal.D8 u
  | _ => Decimal.D9 u
  end%N.

(** The longest run of digits at the head of the input. *)
Fixpoint parseDigits (s : bytes) : Decimal.uint * bytes :=
  match s with
  | c :: s1 =>
      if isDigit c then
        let (u, rest) := parseDigits s1 in (digitOf c u, rest)
      else (Decimal.Nil, s)
  | [] => (Decimal.Nil, [])
  end.

(** The number a minus sign and the digits [u] stand for; the sign of
    zero is kept. *)
Definition negativeNumber (u : Decimal.uint) : Number :=
  match Z.of_int (Decimal.Neg u) with
  | Z0 => NegativeZero
  | z => Integer z
  end.

Definition parseNumber (s : bytes) : option (Number * bytes) :=
  match s with
  | c :: s1 =>
      if ascii_eqb c "-"%char then
        match parseDigits s1 with
        | (Decimal.Nil, _) => None
        | (u, rest) => Some (negativeNumber u, rest)
        end
      else
        match parseDigits s with
        | (Decimal.Nil, _) => None
        | (u, rest) => Some (Integer (Z.of_int (Decimal.Pos u)), rest)
        end
  | [] => None
  end.

(** A decoded member goes into the map under its key; of two members
    with one key the later one stays.  The map is built from the last
    member backwards, so a key already there wins. *)
Fixpoint setMember (k : string) (v : Value) (m : list (string * Value))
  : list (string * Value) :=
  match m with
  | [] => [(k, v)]
  | (k1, v1) :: m1 =>
      match String.compare k k1 with
      | Lt => (k, v) :: m
      | Eq => m
      | Gt => (k1, v1) :: setMember k v m1
      end
  end.

Fixpoint parseValue (fuel : nat) (s : bytes) : option (Value * bytes) :=
  match fuel with
  | O => None
  | S fuel1 =>
      match s with
      | [] => None
      | c :: s1 =>
          if ascii_eqb c "n"%char then
            if bytes_HasPrefix s1 (bytesOf "ull") then Some (VNull, skipn 3 s1) else None
          else if ascii_eqb c "t"%char then
            if bytes_HasPrefix s1 (bytesOf "rue") then Some (VBool true, skipn 3 s1) else None
          else if ascii_eqb c "f"%char then
            if bytes_HasPrefix s1 (bytesOf "alse") then Some (VBool false, skipn 4 s1) else None
          else if ascii_eqb c quote then
            match parseString s1 with
            | Some (str, rest) => Some (VString str, rest)
            | None => None
            end
          else if ascii_eqb c "["%char then
            match s1 with
            | c1 :: s2 =>
                if ascii_eqb c1 "]"%char then Some (VArray [], s2)
                else
                  match parseElements fuel1 s1 with
                  | Some (l, rest) => Some (VArray l, rest)
                  | None => None
                  end
            | [] => None
            end
          else if ascii_eqb c "{"%char then
            match s1 with
            | c1 :: s2 =>
                if ascii_eqb c1 "}"%char then Some (VObject [], s2)
                else
                  match parseMembers fuel1 s1 with
                  | Some (m, rest) => Some (VObject m, rest)
                  | None => None
                  end
            | [] => None
            end
          else
            match parseNumber s with
            | Some (n, rest) => Some (VNumber n, rest)
            | None => None
            end
      end
  end

with parseElements (fuel : nat) (s : bytes) : option (list Value * bytes) :=
  match fuel with
  | O => None
  | S fuel1 =>
      match parseValue fuel1 s with
      | Some (v, c :: rest) =>
          if ascii_eqb c ","%char then
            match parseElements fuel1 rest with
            | Some (l, rest1) => Some (v :: l, rest1)
            | None => None
            end
          else if ascii_eqb c "]"%char then Some ([v], rest)
          else None
      | _ => None
      end
  end

with parseMembers (fuel : nat) (s : bytes) : option (list (string * Value) * bytes) :=
  match fuel with
  | O => None
  | S fuel1 =>
      match s with
      | q :: s1 =>
          if ascii_eqb q quote then
            match parseString s1 with
            | Some (k, colon :: s2) =>
                if ascii_eqb colon ":"%char then
                  match parseValue fuel1 s2 with
                  | Some (v, c :: rest) =>
                      if ascii_eqb c ","%char then
                        match parseMembers fuel1 rest with
                        | Some (m, rest1) => Some (setMember k v m, rest1)
                        | None => None
                        end
                      else if ascii_eqb c "}"%char then Some ([(k, v)], rest)
                      else None
                  | _ => None
                  end
                else None
            | _ => None
            end
          else None
      | [] => None
      end
  end.

(** [json.Unmarshal] into an [any]; [None] is the error return. *)
Definition Unmarshal (data : bytes) : option Value :=
  match parseValue (S (List.length data)) data with
  | Some (v, []) => Some v
  | _ => None
  end.

(** ** The matcher *)

Definition MatchType := string.

Definition MatchTypeExact : MatchType := "exact"%string.
Definition MatchTypeContains : MatchType := "contains"%string.

(** The type switch that [mapContains] and [sliceContains] both apply to
    an item [valB] of [b] and the corresponding item [valA] of [a].  The
    two loops occur inside it as local fixpoints, since they recurse
    through the items; [mapContains] and [sliceContains] below are these
    loops under the source's names. *)
Fixpoint itemContains (valA valB : Value) {struct valB} : bool :=
  match valB with
  | VNull =>
      match valA with
      | VNull => true
      | _ => false
      end
  | VObject v =>
      match valA with
      | VObject mapA =>
          (fix rangeB (b : list (string * Value)) : bool :=
             match b with
             | [] => true
             | (keyB, valB) :: b1 =>
                 match lookup keyB mapA with
                 | None => false
                 | Some valA => if itemContains valA valB then rangeB b1 else false
                 end
             end) v
      | _ => false
      end
  | VArray v =>
      match valA with
      | VArray sliceA =>
          match v with
          | [] => true
          | _ :: _ =>
              if negb (Nat.eqb (List.length sliceA) (List.length v)) then false
              else
                (fix rangeB (a b : list Value) {struct b} : bool :=
                   match b with
                   | [] => true
                   | itemB :: b1 =>
                       match a with
                       | [] => false
                       | itemA :: a1 =>
                           if itemContains itemA itemB then rangeB a1 b1 else false
                       end
                   end) sliceA v
          end
      | _ => false
      end
  | _ =>
      match Marshal valA with
      | None => false
      | Some ab =>
          match Marshal valB with
          | None => false
          | Some bb => bytes_Equal ab bb
          end
      end
  end.

(** [mapContains] checks if map [a] completely contains map [b]. *)
Fixpoint mapContains (a b : list (string * Value)) : bool :=
  match b with
  | [] => true
  | (keyB, valB) :: b1 =>
      match lookup keyB a with
      | None => false
      | Some valA => if itemContains valA valB then mapContains a b1 else false
      end
  end.

(** The loop of [sliceContains]: [a] and [b] are what remains of the two
    slices from index [i] on, so [a[i]] is the head of [a]. *)
Fixpoint sliceItems (a b : list Value) : bool :=
  match b with
  | [] => true
  | itemB :: b1 =>
      match a with
      | [] => false
      | itemA :: a1 => if itemContains itemA itemB then sliceItems a1 b1 else false
      end
  end.

(** [sliceContains] checks if slice [a] completely contains slice [b]. *)
Definition sliceContains (a b : list Value) : bool :=
  match b with
  | [] => true
  | _ :: _ =>
      if negb (Nat.eqb (List.length a) (List.length b)) then false
      else sliceItems a b
  end.

(** [compareMessages] compares two messages based on the match type. *)
Definition compareMessages (matchType : MatchType) (expected actual : Value) : bool :=
  match Marshal expected with
  | None => false
  | Some jsonExpected =>
      match Marshal actual with
      | None => false
      | Some jsonActual =>
          if String.eqb matchType MatchTypeExact then
            bytes_Equal jsonExpected jsonActual
          else if String.eqb matchType MatchTypeContains then
            match Unmarshal jsonExpected with
            | None => false
            | Some expectedVal =>
                match Unmarshal jsonActual with
                | None => false
                | Some actualVal =>
                    match expectedVal with
                    | VString sv => bytes_Contains jsonActual (bytesOf sv)
                    | VObject expectedVal =>
                        match actualVal with
                        | VObject actualMap => mapContains actualMap expectedVal
                        | _ => false
                        end
                    | VArray expectedVal =>
                        match actualVal with
                        | VArray actualSlice => sliceContains actualSlice expectedVal
                        | _ => false
                        end
                    | _ => bytes_Contains jsonActual jsonExpected
                    end
                end
            end
          else false
      end
  end.

(** ** Providers

    A vendor message (an SDK type declared outside this repository) is
    the value its JSON form decodes to; a canned response likewise.  A
    request is the list of its messages. *)

(** [messages[len(messages)-1]]; the index is in range whenever there is
    a message at all. *)
Definition last_message {A} (messages : list A) : option A :=
  nth_error messages (List.length messages - 1).

Module OpenAI.

Record OpenAIRequestMatch := {
  MatchType : MatchType;
  Message : Value
}.

Record OpenAIMock := {
  Name : string;
  Match : OpenAIRequestMatch;
  Response : Value
}.

(** [openai.ChatCompletionNewParams], of which only [Messages] is read. *)
Record ChatCompletionNewParams := { Messages : list Value }.

Record OpenAIProvider := { mocks : list OpenAIMock }.

(** [requestsMatch] checks if two requests are equivalent. *)
Definition requestsMatch (p : OpenAIProvider) (expected : OpenAIRequestMatch)
    (actual : ChatCompletionNewParams) : bool :=
  if Nat.eqb (List.length (Messages actual)) 0 then false
  else
    match last_message (Messages actual) with
    | Some lastMessage =>
        compareMessages (MatchType expected) (Message expected) lastMessage
    | None => false
    end.

Fixpoint rangeMocks (p : OpenAIProvider) (ms : list OpenAIMock)
    (request : ChatCompletionNewParams) : option OpenAIMock :=
  match ms with
  | [] => None
  | mock :: ms' =>
      if requestsMatch p (Match mock) request then Some mock
      else rangeMocks p ms' request
  end.

(** [findMatchingMock] finds the first mock that matches the request. *)
Definition findMatchingMock (p : OpenAIProvider) (request : ChatCompletionNewParams)
  : option OpenAIMock :=
  rangeMocks p (mocks p) request.

End OpenAI.

Module Anthropic.

Record AnthropicRequestMatch := {
  MatchType : MatchType;
  Message : Value
}.

Record AnthropicMock := {
  Name : string;
  Match : AnthropicRequestMatch;
  Response : Value
}.

(** [anthropic.MessageNewParams], of which only [Messages] is read. *)
Record MessageNewParams := { Messages : list Value }.

Record AnthropicProvider := { mocks : list AnthropicMock }.

Definition requestsMatch (p : AnthropicProvider) (expected : AnthropicRequestMatch)
    (actual : MessageNewParams) : bool :=
  if Nat.eqb (List.length (Messages actual)) 0 then false
  else
    match last_message (Messages actual) with
    | Some lastMessage =>
        compareMessages (MatchType expected) (Message expected) lastMessage
    | None => false
    end.

Fixpoint rangeMocks (p : AnthropicProvider) (ms : list AnthropicMock)
    (request : MessageNewParams) : option AnthropicMock :=
  match ms with
  | [] => None
  | mock :: ms' =>
      if requestsMatch p (Match mock) request then Some mock
      else rangeMocks p ms' request
  end.

Definition findMatchingMock (p : AnthropicProvider) (request : MessageNewParams)
  : option AnthropicMock :=
  rangeMocks p (mocks p) request.

End Anthropic.

(** [genai.Content] and [genai.Part], declared in the Google SDK: the
    fields the providers read, and the JSON form the SDK's tags give them
    ([parts], [role] and [text], each left out when empty).  A content
    holds its parts themselves; Go holds pointers to them, and
    [genaiPtr] below has the contents in which one of them is nil.
    Only text parts are modelled. *)
Module genai.

Record Part := { Text : string }.

Record Content := {
  Parts : list Part;
  Role : string
}.

Definition omitempty (key : string) (s : string) : list (string * Value) :=
  if String.eqb s EmptyString then [] else [(key, VString s)].

Definition PartJSON (p : Part) : Value := VObject (omitempty "text" (Text p)).

Definition ContentJSON (c : Content) : Value :=
  VObject ((match Parts c with
            | [] => []
            | _ :: _ => [("parts"%string, VArray (map PartJSON (Parts c)))]
            end) ++ omitempty "role" (Role c)).

End genai.

(** The Google provider that hands the last content to [compareMessages]. *)
Module Google.

Record GoogleRequestMatch := {
  MatchType : MatchType;
  Content : genai.Content
}.

Record GoogleMock := {
  Name : string;
  Match : GoogleRequestMatch;
  Response : Value
}.

Record GoogleRequestBody := { Contents : list genai.Content }.

Record GoogleProvider := { mocks : list GoogleMock }.

Definition requestsMatch (p : GoogleProvider) (expected : GoogleRequestMatch)
    (actual : GoogleRequestBody) : bool :=
  if Nat.eqb (List.length (Contents actual)) 0 then false
  else
    match last_message (Contents actual) with
    | Some lastMessage =>
        compareMessages (MatchType expected) (genai.ContentJSON (Content expected))
          (genai.ContentJSON lastMessage)
    | None => false
    end.

Fixpoint rangeMocks (p : GoogleProvider) (ms : list GoogleMock)
    (request : GoogleRequestBody) : option GoogleMock :=
  match ms with
  | [] => None
  | mock :: ms' =>
      if requestsMatch p (Match mock) request then Some mock
      else rangeMocks p ms' request
  end.

Definition findMatchingMock (p : GoogleProvider) (request : GoogleRequestBody)
  : option GoogleMock :=
  rangeMocks p (mocks p) request.

End Google.

(** The Google provider that compares the last content itself. *)
Module GoogleText.

Record GoogleRequestMatch := {
  MatchType : MatchType;
  Content : genai.Content
}.

Record GoogleMock := {
  Name : string;
  Match : GoogleRequestMatch;
  Response : Value
}.

Record GoogleRequestBody := { Contents : list genai.Content }.

Record GoogleProvider := { mocks : list GoogleMock }.

(** The loop that joins the parts' text with single spaces; [i] is the
    index of the part at the head of [parts]. *)
Fixpoint joinText (i : nat) (parts : list genai.Part) (str : string) : string :=
  match parts with
  | [] => str
  | part :: parts' =>
      let str := if Nat.ltb 0 i then (str ++ " ")%string else str in
      joinText (S i) parts' (str ++ genai.Text part)%string
  end.

Definition requestsMatch (p : GoogleProvider) (expected : GoogleRequestMatch)
    (actual : GoogleRequestBody) : bool :=
  if Nat.eqb (List.length (Contents actual)) 0 then false
  else if String.eqb (MatchType expected) MatchTypeExact then
    match last_message (Contents actual) with
    | Some lastMessage =>
        match Marshal (genai.ContentJSON (Content expected)) with
        | None => false
        | Some jsonExpected =>
            match Marshal (genai.ContentJSON lastMessage) with
            | None => false
            | Some jsonActual => bytes_Equal jsonExpected jsonActual
            end
        end
    | None => false
    end
  else if String.eqb (MatchType expected) MatchTypeContains then
    match last_message (Contents actual) with
    | Some lastMessage =>
        if negb (String.eqb (genai.Role lastMessage) (genai.Role (Content expected)))
        then false
        else
          let strExpected := joinText 0 (genai.Parts (Content expected)) EmptyString in
          let strActual := joinText 0 (genai.Parts lastMessage) EmptyString in
          strings_Contains strActual strExpected
    | None => false
    end
  else false.

Fixpoint rangeMocks (p : GoogleProvider) (ms : list GoogleMock)
    (request : GoogleRequestBody) : option GoogleMock :=
  match ms with
  | [] => None
  | mock :: ms' =>
      if requestsMatch p (Match mock) request then Some mock
      else rangeMocks p ms' request
  end.

Definition findMatchingMock (p : GoogleProvider) (request : GoogleRequestBody)
  : option GoogleMock :=
  rangeMocks p (mocks p) request.

End GoogleText.

(** ** Well-formed values

    A Go map has one entry per key and no order of its own; its entries
    are listed in ascending key order.  A well-formed value has only such
    maps and nothing the encoder rejects. *)

Fixpoint ascending {A} (m : list (string * A)) : bool :=
  match m with
  | [] => true
  | kv :: m1 =>
      match m1 with
      | [] => true
      | kv1 :: _ => String.ltb (fst kv) (fst kv1)
      end && ascending m1
  end.

(** The entries come in key order, equal keys allowed: what [sortByKey]
    returns. *)
Fixpoint ordered {A} (m : list (string * A)) : bool :=
  match m with
  | [] => true
  | kv :: m1 =>
      match m1 with
      | [] => true
      | kv1 :: _ => String.leb (fst kv) (fst kv1)
      end && ordered m1
  end.

Fixpoint wf (v : Value) : bool :=
  match v with
  | VObject m => ascending m && forallb (fun kv => wf (snd kv)) m
  | VArray l => forallb wf l
  | VUnsupported => false
  | _ => true
  end.

(** ** Notions of the round-trip proof *)

(** What follows a number in the text is not a digit. *)
Definition noDigit (rest : bytes) : Prop :=
  match rest with
  | [] => True
  | c :: _ => isDigit c = false
  end.

(** The encoded members of a map, before they are sorted and joined. *)
Definition marshalMembers (m : list (string * Value)) : option (list (string * bytes)) :=
  sequenceMembers (map (fun kv => (fst kv, Marshal (snd kv))) m).

(** The first byte of an encoding opens a value: it closes neither an
    array nor an object. *)
Definition opensValue (c : ascii) : bool :=
  negb (ascii_eqb c "]"%char) && negb (ascii_eqb c "}"%char).

(** A number starts with a digit or a minus sign. *)
Definition startsNumber (c : ascii) : bool := isDigit c || ascii_eqb c "-"%char.

(** [v] round-trips: the decoder, given enough fuel, reads the encoding
    of [v] off the front of the input and returns [v]. *)
Definition roundTrips (v : Value) : Prop :=
  wf v = true ->
  forall bs, Marshal v = Some bs ->
  forall fuel rest, List.length bs <= fuel -> noDigit rest ->
  parseValue fuel (bs ++ rest) = Some (v, rest).

(** ** Dispatch

    The loop every provider's [findMatchingMock] writes out, over an
    arbitrary test [matches]. *)

Fixpoint scan {M} (matches : M -> bool) (ms : list M) : option M :=
  match ms with
  | [] => None
  | mock :: ms' => if matches mock then Some mock else scan matches ms'
  end.

(** [r] is the entry of lowest index in [ms] that satisfies [matches],
    or nothing when no entry of [ms] does. *)
Definition firstMatch {M} (ms : list M) (matches : M -> bool) (r : option M) : Prop :=
  match r with
  | Some mock =>
      exists i, nth_error ms i = Some mock /\ matches mock = true /\
                forall j mj, j < i -> nth_error ms j = Some mj -> matches mj = false
  | None => forall mock, In mock ms -> matches mock = false
  end.

(** [find] returns the first match of every registry, whatever entries
    come after it. *)
Definition firstMatchWins {M} (find : list M -> option M) (matches : M -> bool) : Prop :=
  (forall ms, firstMatch ms matches (find ms)) /\
  (forall before mock after,
      (forall m, In m before -> matches m = false) ->
      matches mock = true ->
      find (before ++ mock :: after) = Some mock).

(** [find] passes over an entry that does not match. *)
Definition skips {M} (find : list M -> option M) (bad : M) : Prop :=
  forall before after, find (before ++ bad :: after) = find (before ++ after).

(** ** The text-comparing Google provider over parts held by pointer

    [genai.Content] holds its parts as [[]*genai.Part], and a part that is
    [null] in the request or in the configuration decodes to a nil
    pointer.  [GoogleText] above is this provider on contents without nil
    parts; here a part may be nil, and reading the text of a nil part
    panics. *)
Module genaiPtr.

Record Content := {
  Parts : list (option genai.Part);
  Role : string
}.

(** [json.Marshal] writes a nil pointer as null. *)
Definition PartJSON (part : option genai.Part) : Value :=
  match part with
  | Some part => genai.PartJSON part
  | None => VNull
  end.

Definition ContentJSON (c : Content) : Value :=
  VObject ((match Parts c with
            | [] => []
            | _ :: _ => [("parts"%string, VArray (map PartJSON (Parts c)))]
            end) ++ genai.omitempty "role" (Role c)).

(** A content without nil parts, as [genai] has it. *)
Definition ofContent (c : genai.Content) : Content :=
  {| Parts := map Some (genai.Parts c); Role := genai.Role c |}.

Definition hasNil (parts : list (option genai.Part)) : bool :=
  existsb (fun part => match part with None => true | Some _ => false end) parts.

(** The text of the parts that are there. *)
Definition texts (parts : list (option genai.Part)) : list string :=
  flat_map (fun part => match part with Some part => [genai.Text part] | None => [] end)
    parts.

End genaiPtr.

Module GoogleTextPtr.

Record GoogleRequestMatch := {
  MatchType : MatchType;
  Content : genaiPtr.Content
}.

Record GoogleRequestBody := { Contents : list genaiPtr.Content }.

(** What a call comes to: a result, or a panic (here the dereference of a
    nil pointer). *)
Inductive Outcome (A : Type) : Type :=
| Returns (a : A)
| Panics.

Arguments Returns {A} a.
Arguments Panics {A}.

(** The loop that joins the parts' text; [part.Text] panics on a nil
    part. *)
Fixpoint joinText (i : nat) (parts : list (option genai.Part)) (str : string)
  : Outcome string :=
  match parts with
  | [] => Returns str
  | part :: parts' =>
      let str := if Nat.ltb 0 i then (str ++ " ")%string else str in
      match part with
      | None => Panics
      | Some part => joinText (S i) parts' (str ++ genai.Text part)%string
      end
  end.

Definition requestsMatch (expected : GoogleRequestMatch) (actual : GoogleRequestBody)
  : Outcome bool :=
  if Nat.eqb (List.length (Contents actual)) 0 then Returns false
  else if String.eqb (MatchType expected) MatchTypeExact then
    match last_message (Contents actual) with
    | Some lastMessage =>
        match Marshal (genaiPtr.ContentJSON (Content expected)) with
        | None => Returns false
        | Some jsonExpected =>
            match Marshal (genaiPtr.ContentJSON lastMessage) with
            | None => Returns false
            | Some jsonActual => Returns (bytes_Equal jsonExpected jsonActual)
            end
        end
    | None => Returns false
    end
  else if String.eqb (MatchType expected) MatchTypeContains then
    match last_message (Contents actual) with
    | Some lastMessage =>
        if negb (String.eqb (genaiPtr.Role lastMessage) (genaiPtr.Role (Content expected)))
        then Returns false
        else
          match joinText 0 (genaiPtr.Parts (Content expected)) EmptyString with
          | Panics => Panics
          | Returns strExpected =>
              match joinText 0 (genaiPtr.Parts lastMessage) EmptyString with
              | Panics => Panics
              | Returns strActual => Returns (strings_Contains strActual strExpected)
              end
          end
    | None => Returns false
    end
  else Returns false.

End GoogleTextPtr.

(** ** Plain text

    The bytes the encoder copies as they are, and the strings made of
    them; the strings of ASCII bytes. *)

Definition plainByte (c : ascii) : bool :=
  let n := N_of_ascii c in
  ((32 <=? n) && (n <? 128) && negb (n =? 34) && negb (n =? 92)
   && negb (n =? 60) && negb (n =? 62) && negb (n =? 38))%N.

Definition plainText (s : string) : bool := forallb plainByte (bytesOf s).

Definition asciiText (s : string) : bool :=
  forallb (fun c => (N_of_ascii c <? 128)%N) (bytesOf s).

(** The bytes the encoder never writes: it escapes them wherever they
    occur in a string or a key. *)
Definition neverWritten (c : ascii) : bool :=
  let n := N_of_ascii c in
  ((n <? 32) || (n =? 60) || (n =? 62) || (n =? 38))%N.

Definition written (bs : bytes) : bool := forallb (fun c => negb (neverWritten c)) bs.

(** ** net/http: what a handler reads and writes

    The response writer of Go's [net/http], as far as the handlers use
    it: the header map, the status line once it is written (with the
    header as it was then), and the body.  Header keys are in canonical
    form. *)

Module http.

Definition StatusOK : nat := 200.
Definition StatusBadRequest : nat := 400.
Definition StatusUnauthorized : nat := 401.
Definition StatusNotFound : nat := 404.
Definition StatusInternalServerError : nat := 500.

Definition Header := list (string * string).

Fixpoint Del (key : string) (h : Header) : Header :=
  match h with
  | [] => []
  | (k, v) :: h' => if String.eqb k key then Del key h' else (k, v) :: Del key h'
  end.

Definition Set_ (key value : string) (h : Header) : Header := (key, value) :: Del key h.

(** [h.Get(key)]: the value under [key], the empty string when there is
    none. *)
Fixpoint Get (key : string) (h : Header) : string :=
  match h with
  | [] => EmptyString
  | (k, v) :: h' => if String.eqb k key then v else Get key h'
  end.

Record ResponseWriter := {
  header : Header;
  sent : option (nat * Header);
  body : bytes
}.

Definition NewRecorder : ResponseWriter :=
  {| header := []; sent := None; body := [] |}.

Definition setHeader (key value : string) (w : ResponseWriter) : ResponseWriter :=
  {| header := Set_ key value (header w); sent := sent w; body := body w |}.

(** [w.WriteHeader(statusCode)]: the first call sends the status line and
    the header; a later call is superfluous and changes nothing. *)
Definition WriteHeader (statusCode : nat) (w : ResponseWriter) : ResponseWriter :=
  match sent w with
  | Some _ => w
  | None => {| header := header w; sent := Some (statusCode, header w); body := body w |}
  end.

(** [w.Write(data)]: sends the status line with [StatusOK] first if none
    was sent. *)
Definition Write (data : bytes) (w : ResponseWriter) : ResponseWriter :=
  let w := WriteHeader StatusOK w in
  {| header := header w; sent := sent w; body := body w ++ data |}.

Definition newline : ascii := ascii_of_N 10.

(** [http.Error(w, error, code)].  Later versions of Go delete further
    headers here, none of which a handler of this server sets. *)
Definition Error (w : ResponseWriter) (error : string) (code : nat) : ResponseWriter :=
  let h := Del "Content-Length" (header w) in
  let h := Set_ "Content-Type" "text/plain; charset=utf-8" h in
  let h := Set_ "X-Content-Type-Options" "nosniff" h in
  let w := {| header := h; sent := sent w; body := body w |} in
  let w := WriteHeader code w in
  Write (bytesOf error ++ [newline]) w.

(** The status the client sees; none while nothing was sent. *)
Definition status (w : ResponseWriter) : option nat := option_map fst (sent w).

(** The header the client sees. *)
Definition sentHeader (w : ResponseWriter) : Header :=
  match sent w with
  | Some (_, h) => h
  | None => []
  end.

(** What [json.NewDecoder(r.Body).Decode] gives for the handler's request
    type: the error's text, or the request. *)
Inductive Decoded (T : Type) : Type :=
| DecodeError (err : string)
| DecodeOK (requestBody : T).

Arguments DecodeError {T} err.
Arguments DecodeOK {T} requestBody.

Record Request (T : Type) := {
  Method : string;
  Path : string;
  ReqHeader : Header;
  Decode : Decoded T
}.

Arguments Method {T} r.
Arguments Path {T} r.
Arguments ReqHeader {T} r.
Arguments Decode {T} r.

End http.

(** ** The server's configuration *)

(** [Config] holds all the mock responses. *)
Record Config := {
  Config_OpenAI : list OpenAI.OpenAIMock;
  Config_Anthropic : list Anthropic.AnthropicMock;
  Config_Google : list Google.GoogleMock;
  ListenAddr : string
}.

(** [Server] is the main mock LLM server; its router and listener are
    left out. *)
Record Server := {
  config : Config;
  openaiProvider : OpenAI.OpenAIProvider;
  anthropicProvider : Anthropic.AnthropicProvider;
  googleProvider : Google.GoogleProvider
}.

(** [NewServer] creates a new mock LLM server with the given config. *)
Definition NewServer (config : Config) : Server :=
  let openaiMocks :=
    fold_left (fun openaiMocks mock =>
                 openaiMocks ++ [{| OpenAI.Name := OpenAI.Name mock;
                                    OpenAI.Match := OpenAI.Match mock;
                                    OpenAI.Response := OpenAI.Response mock |}])
      (Config_OpenAI config) [] in
  let anthropicMocks :=
    fold_left (fun anthropicMocks mock =>
                 anthropicMocks ++ [{| Anthropic.Name := Anthropic.Name mock;
                                       Anthropic.Match := Anthropic.Match mock;
                                       Anthropic.Response := Anthropic.Response mock |}])
      (Config_Anthropic config) [] in
  let googleMocks :=
    fold_left (fun googleMocks mock =>
                 googleMocks ++ [{| Google.Name := Google.Name mock;
                                    Google.Match := Google.Match mock;
                                    Google.Response := Google.Response mock |}])
      (Config_Google config) [] in
  {| config := config;
     openaiProvider := {| OpenAI.mocks := openaiMocks |};
     anthropicProvider := {| Anthropic.mocks := anthropicMocks |};
     googleProvider := {| Google.mocks := googleMocks |} |}.

Definition lenValue {A} (l : list A) : Value := VNumber (Z.of_nat (List.length l)).

(** The map [handleHealth] encodes. *)
Definition healthBody (s : Server) : Value :=
  VObject [("status"%string, VString "healthy");
           ("service"%string, VString "mock-llm");
           ("openai"%string, lenValue (Config_OpenAI (config s)));
           ("anthropic"%string, lenValue (Config_Anthropic (config s)));
           ("google"%string, lenValue (Config_Google (config s)))].

Definition supportedHint : string :=
  "Supported: /v1/chat/completions (OpenAI), /v1/messages (Anthropic), /v1beta/models/{model}:generateContent (Google)".

(** The map [handleNotFound] encodes. *)
Definition notFoundBody {T} (r : http.Request T) : Value :=
  VObject [("error"%string, VString "Endpoint not found");
           ("path"%string, VString (http.Path r));
           ("method"%string, VString (http.Method r));
           ("hint"%string, VString supportedHint)].

(** ** Handlers *)

Section Handlers.

(** The text of the error [json.Marshal] returns for a value it rejects. *)
Variable errorText : Value -> string.

(** [json.NewEncoder(w).Encode(v)]: the encoding and a newline go to [w];
    on an error nothing is written. *)
Definition Encode (w : http.ResponseWriter) (v : Value) : http.ResponseWriter * option string :=
  match Marshal v with
  | Some data => (http.Write (data ++ [http.newline]) w, None)
  | None => (w, Some (errorText v))
  end.

(** [handleNonStreamingResponse] sends a JSON response. *)
Definition handleNonStreamingResponse (w : http.ResponseWriter) (response : Value)
  : http.ResponseWriter :=
  let w := http.setHeader "Content-Type" "application/json" w in
  let w := http.WriteHeader http.StatusOK w in
  match Encode w response with
  | (w, None) => w
  | (w, Some err) =>
      http.Error w ("Failed to encode response: " ++ err)%string
        http.StatusInternalServerError
  end.

(** [Handle] processes an OpenAI chat completion request. *)
Definition OpenAIProvider_Handle (p : OpenAI.OpenAIProvider) (w : http.ResponseWriter)
    (r : http.Request OpenAI.ChatCompletionNewParams) : http.ResponseWriter :=
  match http.Decode r with
  | http.DecodeError err =>
      http.Error w ("Invalid JSON: " ++ err)%string http.StatusBadRequest
  | http.DecodeOK requestBody =>
      match OpenAI.findMatchingMock p requestBody with
      | None => http.Error w "No matching mock found." http.StatusNotFound
      | Some mock => handleNonStreamingResponse w (OpenAI.Response mock)
      end
  end.

(** [Handle] processes an Anthropic messages request. *)
Definition AnthropicProvider_Handle (p : Anthropic.AnthropicProvider)
    (w : http.ResponseWriter) (r : http.Request Anthropic.MessageNewParams)
  : http.ResponseWriter :=
  if String.eqb (http.Get "X-Api-Key" (http.ReqHeader r)) EmptyString then
    http.Error w "Missing x-api-key header" http.StatusUnauthorized
  else if String.eqb (http.Get "Anthropic-Version" (http.ReqHeader r)) EmptyString then
    http.Error w "Missing anthropic-version header" http.StatusBadRequest
  else
    match http.Decode r with
    | http.DecodeError err =>
        http.Error w ("Invalid JSON: " ++ err)%string http.StatusBadRequest
    | http.DecodeOK requestBody =>
        match Anthropic.findMatchingMock p requestBody with
        | None => http.Error w "No matching mock found" http.StatusNotFound
        | Some mock => handleNonStreamingResponse w (Anthropic.Response mock)
        end
    end.

(** [Handle] processes a Google request. *)
Definition GoogleProvider_Handle (p : Google.GoogleProvider) (w : http.ResponseWriter)
    (r : http.Request Google.GoogleRequestBody) : http.ResponseWriter :=
  match http.Decode r with
  | http.DecodeError err =>
      http.Error w ("Invalid JSON: " ++ err)%string http.StatusBadRequest
  | http.DecodeOK requestBody =>
      match Google.findMatchingMock p requestBody with
      | None => http.Error w "No matching mock found" http.StatusNotFound
      | Some mock => handleNonStreamingResponse w (Google.Response mock)
      end
  end.

(** [handleHealth] answers the health check. *)
Definition handleHealth (s : Server) (w : http.ResponseWriter) : http.ResponseWriter :=
  let w := http.setHeader "Content-Type" "application/json" w in
  let w := http.WriteHeader http.StatusOK w in
  match Encode w (healthBody s) with
  | (w, None) => w
  | (w, Some err) =>
      http.Error w ("Failed to encode response: " ++ err)%string
        http.StatusInternalServerError
  end.

(** [handleNotFound] answers a request no route matches. *)
Definition handleNotFound {T} (s : Server) (w : http.ResponseWriter) (r : http.Request T)
  : http.ResponseWriter :=
  let w := http.setHeader "Content-Type" "application/json" w in
  let w := http.WriteHeader http.StatusNotFound w in
  match Encode w (notFoundBody r) with
  | (w, None) => w
  | (w, Some err) =>
      http.Error w ("Failed to encode response: " ++ err)%string
        http.StatusInternalServerError
  end.

End Handlers.

(** * Properties *)

(** ** Bytes *)

Lemma ascii_eqb_eq (a b : ascii) : ascii_eqb a b = true <-> a = b.
Proof. unfold ascii_eqb. apply Ascii.eqb_eq. Qed.

Lemma ascii_eqb_refl (a : ascii) : ascii_eqb a a = true.
Proof. apply ascii_eqb_eq. reflexivity. Qed.

Lemma bytes_Equal_eq (a b : bytes) : bytes_Equal a b = true <-> a = b.
Proof.
  revert b. induction a as [|x a IH]; intros [|y b]; simpl; split; intro H;
    try reflexivity; try discriminate.
  - apply andb_true_iff in H. destruct H as [Hx Ha].
    apply ascii_eqb_eq in Hx. apply IH in Ha. congruence.
  - injection H as -> ->. rewrite ascii_eqb_refl. simpl. apply IH. reflexivity.
Qed.

Lemma bytes_Equal_refl (a : bytes) : bytes_Equal a a = true.
Proof. apply bytes_Equal_eq. reflexivity. Qed.

Lemma bytes_HasPrefix_app (p rest : bytes) : bytes_HasPrefix (p ++ rest) p = true.
Proof.
  induction p as [|c p IH]; simpl; [reflexivity|].
  rewrite ascii_eqb_refl. exact IH.
Qed.

Lemma bytes_HasPrefix_spec (s p : bytes) :
  bytes_HasPrefix s p = true <-> exists post, s = p ++ post.
Proof.
  revert s. induction p as [|c p IH]; intros s; simpl.
  - split; [intros _; exists s; reflexivity | reflexivity].
  - destruct s as [|d s].
    + split; [discriminate | intros [post H]; discriminate].
    + rewrite andb_true_iff, ascii_eqb_eq, IH. split.
      * intros [-> [post ->]]. exists post. reflexivity.
      * intros [post H]. injection H as -> ->. split; [reflexivity | eauto].
Qed.

(** [bytes_Contains b sub] holds exactly when [sub] occurs in [b]. *)
Lemma bytes_Contains_spec (b sub : bytes) :
  bytes_Contains b sub = true <-> exists pre post, b = pre ++ sub ++ post.
Proof.
  induction b as [|c b IH]; simpl.
  - rewrite orb_false_r, bytes_HasPrefix_spec. split.
    + intros [post H]. exists [], post. exact H.
    + intros [pre [post H]]. destruct pre; [eauto | discriminate].
  - rewrite orb_true_iff, bytes_HasPrefix_spec, IH. split.
    + intros [[post H] | [pre [post H]]].
      * exists [], post. exact H.
      * exists (c :: pre), post. simpl. congruence.
    + intros [[|d pre] [post H]].
      * left. exists post. exact H.
      * right. injection H as -> ->. eauto.
Qed.

(** ** Strings round-trip through the encoder *)

Lemma parseChars_escapeByte (c : ascii) (rest : bytes) :
  parseChars (escapeByte c ++ rest) = prepend [c] (parseChars rest).
Proof.
  destruct c as [[] [] [] [] [] [] [] []]; reflexivity.
Qed.

Lemma parseChars_escape (s : string) (rest : bytes) :
  parseChars (escape s ++ quote :: rest) = Some (list_ascii_of_string s, rest).
Proof.
  induction s as [|c s IH]; simpl.
  - reflexivity.
  - rewrite <- app_assoc, parseChars_escapeByte, IH. reflexivity.
Qed.

Lemma parseString_encodeString (s : string) (rest : bytes) :
  parseString (escape s ++ quote :: rest) = Some (s, rest).
Proof.
  unfold parseString. rewrite parseChars_escape, string_of_list_ascii_of_string.
  reflexivity.
Qed.

(** ** Numbers round-trip through the encoder *)

Lemma parseDigits_noDigit (rest : bytes) :
  noDigit rest -> parseDigits rest = (Decimal.Nil, rest).
Proof.
  destruct rest as [|c rest]; simpl; [reflexivity|].
  intros ->. reflexivity.
Qed.

Lemma parseDigits_uintBytes (u : Decimal.uint) (rest : bytes) :
  noDigit rest -> parseDigits (uintBytes u ++ rest) = (u, rest).
Proof.
  intros H. induction u; simpl;
    try (change (isDigit (digitChar _)) with true; cbv iota; rewrite IHu; reflexivity).
  apply parseDigits_noDigit. exact H.
Qed.

Lemma uintBytes_head (u : Decimal.uint) :
  u <> Decimal.Nil ->
  exists c tl, uintBytes u = c :: tl /\ ascii_eqb c "-"%char = false.
Proof.
  destruct u; intros H; try congruence; simpl; eexists; eexists; split;
    try reflexivity; reflexivity.
Qed.

Lemma parseNumber_encodeInteger (n : Z) (rest : bytes) :
  noDigit rest -> parseNumber (encodeInteger n ++ rest) = Some (Integer n, rest).
Proof.
  intros H. unfold encodeInteger.
  pose proof (DecimalZ.of_to n) as Hn.
  destruct (Z.to_int n) as [u|u] eqn:E.
  - assert (Hu : u <> Decimal.Nil).
    { destruct n; simpl in E; try discriminate; injection E as <-;
        [discriminate | apply DecimalPos.Unsigned.to_uint_nonnil]. }
    destruct (uintBytes_head u Hu) as [c [tl [Ec Hc]]].
    pose proof (parseDigits_uintBytes u rest H) as Hd. rewrite Ec in *.
    unfold parseNumber. cbn [app] in *. rewrite Hc, Hd, Hn.
    destruct u; congruence.
  - assert (Hu : u <> Decimal.Nil).
    { destruct n; simpl in E; try discriminate. injection E as <-.
      apply DecimalPos.Unsigned.to_uint_nonnil. }
    assert (Hneg : negativeNumber u = Integer n).
    { unfold negativeNumber. rewrite Hn. destruct n; simpl in E; try discriminate.
      reflexivity. }
    unfold parseNumber. cbn [app]. rewrite ascii_eqb_refl.
    rewrite parseDigits_uintBytes by exact H.
    rewrite Hneg. destruct u; congruence.
Qed.

Lemma parseNumber_encodeNumber (n : Number) (rest : bytes) :
  noDigit rest -> parseNumber (encodeNumber n ++ rest) = Some (n, rest).
Proof.
  intros H. destruct n as [z|]; [apply parseNumber_encodeInteger; exact H|].
  pose proof (parseDigits_uintBytes (Decimal.D0 Decimal.Nil) rest H) as Hd.
  unfold encodeNumber, parseNumber. cbn [bytesOf list_ascii_of_string app].
  rewrite ascii_eqb_refl. cbn [uintBytes app] in Hd.
  change (digitChar 0) with "0"%char in Hd. rewrite Hd. reflexivity.
Qed.

(** ** Maps listed in key order *)

Lemma ltb_leb (a b : string) : String.ltb a b = true -> String.leb a b = true.
Proof.
  unfold String.ltb, String.leb. destruct (String.compare a b); congruence.
Qed.

Lemma ltb_compare (a b : string) : String.ltb a b = true -> String.compare a b = Lt.
Proof.
  unfold String.ltb. destruct (String.compare a b); congruence.
Qed.

Lemma sortByKey_ascending {A} (m : list (string * A)) :
  ascending m = true -> sortByKey m = m.
Proof.
  induction m as [|kv m IH]; simpl; [reflexivity|].
  intros H. apply andb_true_iff in H. destruct H as [Hk Hm].
  rewrite (IH Hm). destruct m as [|kv1 m]; simpl; [reflexivity|].
  rewrite (ltb_leb _ _ Hk). reflexivity.
Qed.

Lemma setMember_ascending (k : string) (v : Value) (m : list (string * Value)) :
  ascending ((k, v) :: m) = true -> setMember k v m = (k, v) :: m.
Proof.
  destruct m as [|[k1 v1] m]; simpl; [reflexivity|].
  intros H. apply andb_true_iff in H. destruct H as [Hk _].
  rewrite (ltb_compare _ _ Hk). reflexivity.
Qed.

Lemma marshalMembers_cons (k : string) (v : Value) (m : list (string * Value)) :
  marshalMembers ((k, v) :: m) =
  match Marshal v with
  | Some b =>
      match marshalMembers m with
      | Some fields => Some ((k, b) :: fields)
      | None => None
      end
  | None => None
  end.
Proof.
  unfold marshalMembers, sequenceMembers. simpl.
  destruct (Marshal v); reflexivity.
Qed.

Lemma marshalMembers_keys (m : list (string * Value)) (fields : list (string * bytes)) :
  marshalMembers m = Some fields -> map fst fields = map fst m.
Proof.
  revert fields. induction m as [|[k v] m IH]; intros fields.
  - intros H. injection H as <-. reflexivity.
  - rewrite marshalMembers_cons. destruct (Marshal v); [|discriminate].
    destruct (marshalMembers m) as [fs|]; [|discriminate].
    intros H. injection H as <-. simpl. f_equal. apply IH. reflexivity.
Qed.

Lemma ascending_keys {A B} (m : list (string * A)) (m' : list (string * B)) :
  map fst m' = map fst m -> ascending m = true -> ascending m' = true.
Proof.
  revert m'. induction m as [|kv m IH]; intros [|kv' m'] E; try discriminate;
    [reflexivity|].
  simpl in E. injection E as Ek Em. simpl. intros H.
  apply andb_true_iff in H. destruct H as [Hk Hm].
  rewrite (IH _ Em Hm), andb_true_r.
  destruct m as [|kv1 m]; destruct m' as [|kv1' m']; try discriminate;
    [reflexivity|].
  simpl in Em. injection Em as Ek1 _. congruence.
Qed.

Lemma Marshal_object (m : list (string * Value)) :
  Marshal (VObject m) =
  match marshalMembers m with
  | Some fields =>
      Some ("{"%char :: join [","%char] (map encodeMember (sortByKey fields)) ++ ["}"%char])
  | None => None
  end.
Proof. reflexivity. Qed.

Lemma Marshal_array (l : list Value) :
  Marshal (VArray l) =
  match sequence (map Marshal l) with
  | Some items => Some ("["%char :: join [","%char] items ++ ["]"%char])
  | None => None
  end.
Proof. reflexivity. Qed.

(** The encoder accepts every well-formed value. *)
Lemma wf_Marshal (v : Value) : wf v = true -> exists bs, Marshal v = Some bs.
Proof.
  induction v as [|b|n|s|m IH|l IH|] using Value_ind'; intros H;
    try (eexists; reflexivity); try discriminate.
  - destruct b; eexists; reflexivity.
  - rewrite Marshal_object. simpl in H. apply andb_true_iff in H.
    destruct H as [_ H].
    assert (Hm : exists fields, marshalMembers m = Some fields).
    { induction m as [|[k v] m IHm]; [eexists; reflexivity|].
      simpl in H. apply andb_true_iff in H. destruct H as [Hv Hm].
      inversion IH as [|? ? IHv IHrest]; subst. cbn [snd] in *.
      rewrite marshalMembers_cons.
      destruct (IHv Hv) as [b ->]. destruct (IHm IHrest Hm) as [fs ->].
      eexists; reflexivity. }
    destruct Hm as [fields ->]. eexists; reflexivity.
  - rewrite Marshal_array. simpl in H.
    assert (Hl : exists items, sequence (map Marshal l) = Some items).
    { induction l as [|v l IHl]; [eexists; reflexivity|].
      simpl in H. apply andb_true_iff in H. destruct H as [Hv Hl].
      inversion IH as [|? ? IHv IHrest]; subst. simpl.
      destruct (IHv Hv) as [b ->]. destruct (IHl IHrest Hl) as [items ->].
      eexists; reflexivity. }
    destruct Hl as [items ->]. eexists; reflexivity.
Qed.

(** ** The encoder and the order a map's entries are listed in *)

Lemma insertByKey_ordered {A} (x : string * A) (l : list (string * A)) :
  ordered l = true -> ordered (insertByKey x l) = true.
Proof.
  induction l as [|y l IH]; intros H; [reflexivity|].
  cbn [insertByKey]. destruct (String.leb (fst x) (fst y)) eqn:E.
  - cbn [ordered] in *. rewrite E. exact H.
  - assert (Hyx : String.leb (fst y) (fst x) = true).
    { destruct (String.leb_total (fst x) (fst y)); congruence. }
    cbn [ordered] in H. apply andb_true_iff in H. destruct H as [Hy Hl].
    specialize (IH Hl). cbn [ordered]. rewrite IH, andb_true_r.
    destruct l as [|z l]; cbn [insertByKey]; [exact Hyx|].
    destruct (String.leb (fst x) (fst z)); [exact Hyx | exact Hy].
Qed.

Lemma sortByKey_ordered {A} (l : list (string * A)) : ordered (sortByKey l) = true.
Proof.
  induction l as [|x l IH]; [reflexivity|].
  cbn [sortByKey]. apply insertByKey_ordered. exact IH.
Qed.

Lemma sortByKey_id {A} (l : list (string * A)) : ordered l = true -> sortByKey l = l.
Proof.
  induction l as [|x l IH]; [reflexivity|].
  cbn [ordered sortByKey]. intros H. apply andb_true_iff in H. destruct H as [Hx Hl].
  rewrite (IH Hl). destruct l as [|y l]; [reflexivity|].
  cbn [insertByKey]. rewrite Hx. reflexivity.
Qed.

Lemma sortByKey_idempotent {A} (l : list (string * A)) :
  sortByKey (sortByKey l) = sortByKey l.
Proof. apply sortByKey_id, sortByKey_ordered. Qed.

Lemma marshalMembers_insertByKey (k : string) (v : Value) (m : list (string * Value)) :
  marshalMembers (insertByKey (k, v) m) =
  match Marshal v, marshalMembers m with
  | Some b, Some fields => Some (insertByKey (k, b) fields)
  | _, _ => None
  end.
Proof.
  induction m as [|[k1 v1] m IH].
  - cbn [insertByKey]. rewrite marshalMembers_cons. destruct (Marshal v); reflexivity.
  - cbn [insertByKey fst]. destruct (String.leb k k1) eqn:E.
    + rewrite !marshalMembers_cons. destruct (Marshal v); [|reflexivity].
      destruct (Marshal v1); [|reflexivity].
      destruct (marshalMembers m); [|reflexivity].
      cbn [insertByKey fst]. rewrite E. reflexivity.
    + rewrite !marshalMembers_cons, IH. destruct (Marshal v1).
      * destruct (Marshal v); [|reflexivity].
        destruct (marshalMembers m); [|reflexivity].
        cbn [insertByKey fst]. rewrite E. reflexivity.
      * destruct (Marshal v); reflexivity.
Qed.

Lemma marshalMembers_sortByKey (m : list (string * Value)) :
  marshalMembers (sortByKey m) = option_map sortByKey (marshalMembers m).
Proof.
  induction m as [|[k v] m IH]; [reflexivity|].
  cbn [sortByKey]. rewrite marshalMembers_insertByKey, IH, marshalMembers_cons.
  destruct (Marshal v); [|reflexivity].
  destruct (marshalMembers m); reflexivity.
Qed.

(** The encoding of a map is that of its entries listed in key order. *)
Lemma Marshal_sortByKey (m : list (string * Value)) :
  Marshal (VObject (sortByKey m)) = Marshal (VObject m).
Proof.
  rewrite !Marshal_object, marshalMembers_sortByKey.
  destruct (marshalMembers m) as [fields|]; [|reflexivity].
  cbn [option_map]. rewrite sortByKey_idempotent. reflexivity.
Qed.

(** ** Values round-trip through the encoder *)

Lemma encodeNumber_head (n : Number) :
  exists c tl, encodeNumber n = c :: tl /\ startsNumber c = true.
Proof.
  destruct n as [z|]; [|eexists; eexists; split; reflexivity].
  unfold encodeNumber, encodeInteger. destruct (Z.to_int z) as [u|u] eqn:E.
  - assert (Hu : u <> Decimal.Nil).
    { destruct z; simpl in E; try discriminate; injection E as <-;
        [discriminate | apply DecimalPos.Unsigned.to_uint_nonnil]. }
    destruct u; try congruence; simpl; eexists; eexists; split;
      try reflexivity; reflexivity.
  - eexists; eexists; split; reflexivity.
Qed.

Lemma parseValue_number (fuel : nat) (n : Number) (rest : bytes) :
  noDigit rest ->
  parseValue (S fuel) (encodeNumber n ++ rest) = Some (VNumber n, rest).
Proof.
  intros H. pose proof (parseNumber_encodeNumber n rest H) as Hp.
  destruct (encodeNumber_head n) as [c [tl [E Hc]]]. rewrite E in *.
  cbn [app] in *. cbn [parseValue]. rewrite Hp.
  destruct c as [[] [] [] [] [] [] [] []]; try discriminate Hc; reflexivity.
Qed.

Lemma parseValue_string (fuel : nat) (s : string) (rest : bytes) :
  parseValue (S fuel) (encodeString s ++ rest) = Some (VString s, rest).
Proof.
  unfold encodeString. cbn [app]. rewrite <- app_assoc. cbn [app].
  cbn [parseValue]. rewrite parseString_encodeString. reflexivity.
Qed.

Lemma Marshal_head (v : Value) (bs : bytes) :
  Marshal v = Some bs -> exists c tl, bs = c :: tl /\ opensValue c = true.
Proof.
  destruct v as [|[]|n|s|m|l|].
  - intros H; injection H as <-; eexists; eexists; split; reflexivity.
  - intros H; injection H as <-; eexists; eexists; split; reflexivity.
  - intros H; injection H as <-; eexists; eexists; split; reflexivity.
  - intros H; injection H as <-.
    destruct (encodeNumber_head n) as [c [tl [E Hc]]]. rewrite E.
    exists c, tl. split; [reflexivity|].
    destruct c as [[] [] [] [] [] [] [] []]; try discriminate Hc; reflexivity.
  - intros H; injection H as <-; eexists; eexists; split; reflexivity.
  - rewrite Marshal_object. destruct (marshalMembers m); [|discriminate].
    intros H; injection H as <-; eexists; eexists; split; reflexivity.
  - rewrite Marshal_array. destruct (sequence (map Marshal l)); [|discriminate].
    intros H; injection H as <-; eexists; eexists; split; reflexivity.
  - discriminate.
Qed.

Lemma parseElements_S (fuel : nat) (s : bytes) :
  parseElements (S fuel) s =
  match parseValue fuel s with
  | Some (v, c :: rest) =>
      if ascii_eqb c ","%char then
        match parseElements fuel rest with
        | Some (l, rest1) => Some (v :: l, rest1)
        | None => None
        end
      else if ascii_eqb c "]"%char then Some ([v], rest)
      else None
  | _ => None
  end.
Proof. reflexivity. Qed.

Lemma parseMembers_S (fuel : nat) (k : string) (tail : bytes) :
  parseMembers (S fuel) (quote :: escape k ++ quote :: ":"%char :: tail) =
  match parseValue fuel tail with
  | Some (v, c :: rest) =>
      if ascii_eqb c ","%char then
        match parseMembers fuel rest with
        | Some (m, rest1) => Some (setMember k v m, rest1)
        | None => None
        end
      else if ascii_eqb c "}"%char then Some ([(k, v)], rest)
      else None
  | _ => None
  end.
Proof.
  cbn [parseMembers]. rewrite ascii_eqb_refl, parseString_encodeString.
  rewrite ascii_eqb_refl. reflexivity.
Qed.

Lemma encodeMember_app (k : string) (b tail : bytes) :
  encodeMember (k, b) ++ tail = quote :: escape k ++ quote :: ":"%char :: b ++ tail.
Proof.
  unfold encodeMember, encodeString. simpl. rewrite <- !app_assoc. reflexivity.
Qed.

Lemma encodeMember_length (k : string) (b : bytes) :
  List.length b < List.length (encodeMember (k, b)).
Proof.
  unfold encodeMember, encodeString. simpl. rewrite !length_app. simpl. lia.
Qed.

Lemma parseElements_join (l : list Value) :
  Forall roundTrips l -> l <> [] -> forallb wf l = true ->
  forall items, sequence (map Marshal l) = Some items ->
  forall fuel rest, List.length (join [","%char] items) < fuel ->
  parseElements fuel (join [","%char] items ++ "]"%char :: rest) = Some (l, rest).
Proof.
  induction l as [|e l IH]; intros HF Hne Hwf items Hitems fuel rest Hfuel;
    [congruence|].
  inversion HF as [|? ? He HFl]; subst.
  simpl in Hwf. apply andb_true_iff in Hwf. destruct Hwf as [Hwe Hwl].
  simpl in Hitems. destruct (Marshal e) as [be|] eqn:Ee; [|discriminate].
  destruct (sequence (map Marshal l)) as [bl|] eqn:El; [|discriminate].
  injection Hitems as <-.
  destruct fuel as [|fuel]; [lia|]. rewrite parseElements_S.
  destruct l as [|e2 l].
  - injection El as <-. simpl in *.
    rewrite (He Hwe be Ee fuel ("]"%char :: rest)) by (simpl; auto; lia).
    reflexivity.
  - assert (Hbl : exists b2 bl', bl = b2 :: bl').
    { simpl in El. destruct (Marshal e2); [|discriminate].
      destruct (sequence (map Marshal l)); [|discriminate].
      injection El as <-. eauto. }
    destruct Hbl as [b2 [bl' ->]].
    change (join [","%char] (be :: b2 :: bl'))
      with (be ++ [","%char] ++ join [","%char] (b2 :: bl')) in *.
    rewrite !length_app in Hfuel. cbn [List.length] in Hfuel.
    rewrite <- !app_assoc. cbn [app].
    rewrite (He Hwe be Ee fuel) by (simpl; auto; lia).
    change (ascii_eqb "," ",") with true. cbv iota.
    rewrite (IH HFl ltac:(discriminate) Hwl (b2 :: bl') eq_refl fuel rest) by lia.
    reflexivity.
Qed.

Lemma parseMembers_join (m : list (string * Value)) :
  Forall (fun kv => roundTrips (snd kv)) m -> m <> [] ->
  ascending m = true -> forallb (fun kv => wf (snd kv)) m = true ->
  forall fields, marshalMembers m = Some fields ->
  forall fuel rest, List.length (join [","%char] (map encodeMember fields)) < fuel ->
  parseMembers fuel (join [","%char] (map encodeMember fields) ++ "}"%char :: rest)
  = Some (m, rest).
Proof.
  induction m as [|[k v] m IH]; intros HF Hne Hasc Hwf fields Hfields fuel rest Hfuel;
    [congruence|].
  inversion HF as [|? ? Hv HFm]; subst. cbn [snd] in Hv.
  simpl in Hwf. apply andb_true_iff in Hwf. destruct Hwf as [Hwv Hwm].
  rewrite marshalMembers_cons in Hfields.
  destruct (Marshal v) as [bv|] eqn:Ev; [|discriminate].
  destruct (marshalMembers m) as [fs|] eqn:Em; [|discriminate].
  injection Hfields as <-.
  destruct fuel as [|fuel]; [lia|].
  destruct m as [|[k2 v2] m].
  - injection Em as <-. cbn [map join] in *.
    pose proof (encodeMember_length k bv).
    rewrite encodeMember_app, parseMembers_S.
    rewrite (Hv Hwv bv Ev fuel ("}"%char :: rest)) by (simpl; auto; lia).
    reflexivity.
  - assert (Hfs : exists f2 fs', fs = f2 :: fs').
    { rewrite marshalMembers_cons in Em. destruct (Marshal v2); [|discriminate].
      destruct (marshalMembers m); [|discriminate].
      injection Em as <-. eauto. }
    destruct Hfs as [f2 [fs' ->]].
    change (join [","%char] (map encodeMember ((k, bv) :: f2 :: fs')))
      with (encodeMember (k, bv) ++ [","%char]
              ++ join [","%char] (map encodeMember (f2 :: fs'))) in *.
    pose proof (encodeMember_length k bv).
    rewrite !length_app in Hfuel. cbn [List.length] in Hfuel.
    rewrite <- app_assoc, encodeMember_app, parseMembers_S.
    rewrite <- !app_assoc. cbn [app].
    rewrite (Hv Hwv bv Ev fuel) by (simpl; auto; lia).
    change (ascii_eqb "," ",") with true. cbv iota.
    assert (Hasc' : ascending ((k2, v2) :: m) = true).
    { simpl in Hasc. apply andb_true_iff in Hasc. apply Hasc. }
    rewrite (IH HFm ltac:(discriminate) Hasc' Hwm (f2 :: fs') eq_refl fuel rest) by lia.
    rewrite setMember_ascending by exact Hasc. reflexivity.
Qed.

Lemma parseValue_roundTrips (v : Value) : roundTrips v.
Proof.
  induction v as [|b|n|s|m IH|l IH|] using Value_ind';
    intros Hwf bs Hbs fuel rest Hfuel Hrest.
  - injection Hbs as <-. destruct fuel; [simpl in Hfuel; lia | reflexivity].
  - destruct b; injection Hbs as <-;
      (destruct fuel; [simpl in Hfuel; lia | reflexivity]).
  - injection Hbs as <-. destruct fuel as [|fuel].
    + destruct (encodeNumber_head n) as [c [tl [E _]]]. rewrite E in Hfuel.
      simpl in Hfuel. lia.
    + apply parseValue_number. exact Hrest.
  - injection Hbs as <-. destruct fuel; [simpl in Hfuel; lia|].
    apply parseValue_string.
  - rewrite Marshal_object in Hbs.
    destruct (marshalMembers m) as [fields|] eqn:Em; [|discriminate].
    injection Hbs as <-. simpl in Hwf. apply andb_true_iff in Hwf.
    destruct Hwf as [Hasc Hwf].
    rewrite (sortByKey_ascending fields) in *
      by (eapply ascending_keys; [apply marshalMembers_keys|]; eassumption).
    destruct fuel as [|fuel]; [simpl in Hfuel; lia|].
    cbn [List.length] in Hfuel. rewrite length_app in Hfuel. simpl in Hfuel.
    destruct m as [|[k v] m].
    + injection Em as <-. reflexivity.
    + assert (Hne : (k, v) :: m <> []) by discriminate.
      assert (Hlen : List.length (join [","%char] (map encodeMember fields)) < fuel)
        by lia.
      pose proof (parseMembers_join _ IH Hne Hasc Hwf _ Em fuel rest Hlen) as Hp.
      cbn [app]. rewrite <- app_assoc. cbn [app].
      rewrite marshalMembers_cons in Em.
      destruct (Marshal v) as [bv|]; [|discriminate].
      destruct (marshalMembers m) as [fs|]; [|discriminate].
      injection Em as <-.
      assert (Hq : exists tl, join [","%char] (map encodeMember ((k, bv) :: fs))
                              ++ "}"%char :: rest = quote :: tl).
      { destruct fs; cbn [map join]; unfold encodeMember, encodeString;
          cbn [app fst]; eexists; reflexivity. }
      destruct Hq as [tl Hq]. rewrite Hq in Hp. rewrite Hq.
      cbn [parseValue]. change (ascii_eqb "{" "n") with false.
      change (ascii_eqb "{" "t") with false. change (ascii_eqb "{" "f") with false.
      change (ascii_eqb "{" quote) with false. change (ascii_eqb "{" "[") with false.
      change (ascii_eqb "{" "{") with true. change (ascii_eqb quote "}") with false.
      cbv iota. rewrite Hp. reflexivity.
  - rewrite Marshal_array in Hbs.
    destruct (sequence (map Marshal l)) as [items|] eqn:El; [|discriminate].
    injection Hbs as <-.
    destruct fuel as [|fuel]; [simpl in Hfuel; lia|].
    cbn [List.length] in Hfuel. rewrite length_app in Hfuel. simpl in Hfuel.
    destruct l as [|e l].
    + injection El as <-. reflexivity.
    + assert (Hne : e :: l <> []) by discriminate.
      assert (Hlen : List.length (join [","%char] items) < fuel) by lia.
      pose proof (parseElements_join _ IH Hne Hwf _ El fuel rest Hlen) as Hp.
      cbn [app]. rewrite <- app_assoc. cbn [app].
      simpl in El. destruct (Marshal e) as [be|] eqn:Ee; [|discriminate].
      destruct (sequence (map Marshal l)) as [bl|]; [|discriminate].
      injection El as <-.
      destruct (Marshal_head e be Ee) as [c [tl [-> Hc]]].
      assert (Hq : exists tl', join [","%char] ((c :: tl) :: bl)
                               ++ "]"%char :: rest = c :: tl').
      { destruct bl; cbn [join app]; eauto. }
      destruct Hq as [tl2 Hq]. rewrite Hq in Hp. rewrite Hq.
      cbn [parseValue]. change (ascii_eqb "[" "n") with false.
      change (ascii_eqb "[" "t") with false. change (ascii_eqb "[" "f") with false.
      change (ascii_eqb "[" quote) with false. change (ascii_eqb "[" "[") with true.
      unfold opensValue in Hc. apply andb_true_iff in Hc. destruct Hc as [Hc _].
      apply negb_true_iff in Hc. rewrite Hc.
      cbv iota. rewrite Hp. reflexivity.
  - discriminate.
Qed.

(** Decoding what the encoder wrote for a well-formed value gives the
    value back. *)
Lemma Unmarshal_Marshal (v : Value) (bs : bytes) :
  wf v = true -> Marshal v = Some bs -> Unmarshal bs = Some v.
Proof.
  intros Hwf Hbs. unfold Unmarshal.
  assert (Hfuel : List.length bs <= S (List.length bs)) by lia.
  pose proof (parseValue_roundTrips v Hwf bs Hbs (S (List.length bs)) [] Hfuel I) as H.
  rewrite app_nil_r in H. rewrite H. reflexivity.
Qed.

(** The encoder is injective on well-formed values. *)
Lemma Marshal_inj (v w : Value) (bs : bytes) :
  wf v = true -> wf w = true ->
  Marshal v = Some bs -> Marshal w = Some bs -> v = w.
Proof.
  intros Hv Hw Ev Ew.
  apply Unmarshal_Marshal in Ev; [|exact Hv].
  apply Unmarshal_Marshal in Ew; [|exact Hw]. congruence.
Qed.

(** ** The matcher's loops *)

Lemma itemContains_object (a b : list (string * Value)) :
  itemContains (VObject a) (VObject b) = mapContains a b.
Proof.
  induction b as [|[k v] b IH]; [reflexivity|].
  change (itemContains (VObject a) (VObject ((k, v) :: b)))
    with (match lookup k a with
          | None => false
          | Some valA =>
              if itemContains valA v then itemContains (VObject a) (VObject b) else false
          end).
  rewrite IH. reflexivity.
Qed.

Lemma sliceItems_loop (b a : list Value) :
  (fix rangeB (a b : list Value) {struct b} : bool :=
     match b with
     | [] => true
     | itemB :: b1 =>
         match a with
         | [] => false
         | itemA :: a1 => if itemContains itemA itemB then rangeB a1 b1 else false
         end
     end) a b = sliceItems a b.
Proof.
  revert a. induction b as [|y b IH]; intros [|x a]; try reflexivity.
  cbn [sliceItems]. rewrite <- IH. reflexivity.
Qed.

Lemma itemContains_array (a b : list Value) :
  itemContains (VArray a) (VArray b) = sliceContains a b.
Proof.
  destruct b as [|y b]; [reflexivity|].
  unfold sliceContains. rewrite <- sliceItems_loop. reflexivity.
Qed.

Lemma mapContains_spec (a b : list (string * Value)) :
  mapContains a b = true <->
  forall keyB valB, In (keyB, valB) b ->
    exists valA, lookup keyB a = Some valA /\ itemContains valA valB = true.
Proof.
  induction b as [|[k v] b IH]; simpl.
  - split; [intros _ ? ? [] | reflexivity].
  - split.
    + intros H keyB valB [E | Hin].
      * injection E as <- <-. destruct (lookup k a) as [valA|]; [|discriminate].
        exists valA. destruct (itemContains valA v); [auto | discriminate].
      * destruct (lookup k a) as [valA|]; [|discriminate].
        destruct (itemContains valA v); [|discriminate].
        apply IH; assumption.
    + intros H. destruct (H k v (or_introl eq_refl)) as [valA [-> ->]].
      apply IH. intros keyB valB Hin. apply H. right. exact Hin.
Qed.

Lemma sliceItems_spec (a b : list Value) :
  List.length a = List.length b ->
  (sliceItems a b = true <->
   forall i itemA itemB, nth_error a i = Some itemA -> nth_error b i = Some itemB ->
     itemContains itemA itemB = true).
Proof.
  revert a. induction b as [|y b IH]; intros [|x a] Hlen; try discriminate; simpl.
  - split; [intros _ [|i] ? ? H; discriminate H | reflexivity].
  - injection Hlen as Hlen. destruct (IH a Hlen) as [IH1 IH2]. split.
    + intros H [|i] itemA itemB Ha Hb; simpl in Ha, Hb.
      * injection Ha as <-. injection Hb as <-.
        destruct (itemContains x y); [reflexivity | discriminate].
      * destruct (itemContains x y); [|discriminate].
        eapply IH1; eassumption.
    + intros H. rewrite (H 0 x y eq_refl eq_refl).
      apply IH2. intros i itemA itemB Ha Hb. apply (H (S i)); assumption.
Qed.

Lemma itemContains_null (valA : Value) :
  itemContains valA VNull = true <-> valA = VNull.
Proof.
  destruct valA; simpl; split; intros H; try reflexivity; discriminate.
Qed.

(** On a string, a number or a boolean the type switch falls to its
    default: the two encodings must be equal, and so must the values. *)
Lemma itemContains_scalar (valA valB : Value) :
  wf valA = true -> wf valB = true ->
  match valB with VNull | VObject _ | VArray _ => False | _ => True end ->
  (itemContains valA valB = true <-> valA = valB).
Proof.
  intros HA HB Hs.
  destruct (wf_Marshal valA HA) as [ab Ea]. destruct (wf_Marshal valB HB) as [bb Eb].
  assert (E : itemContains valA valB = bytes_Equal ab bb).
  { destruct valB; try contradiction; cbn [itemContains]; rewrite Ea, ?Eb;
      reflexivity. }
  rewrite E, bytes_Equal_eq. split.
  - intros <-. eapply Marshal_inj; eassumption.
  - intros <-. congruence.
Qed.

(** ** compareMessages, mode by mode *)

Lemma compareMessages_Exact (expected actual : Value) :
  compareMessages MatchTypeExact expected actual =
  match Marshal expected, Marshal actual with
  | Some jsonExpected, Some jsonActual => bytes_Equal jsonExpected jsonActual
  | _, _ => false
  end.
Proof.
  unfold compareMessages. destruct (Marshal expected), (Marshal actual); reflexivity.
Qed.

Lemma compareMessages_Contains (expected actual : Value) (jsonExpected jsonActual : bytes) :
  wf expected = true -> wf actual = true ->
  Marshal expected = Some jsonExpected -> Marshal actual = Some jsonActual ->
  compareMessages MatchTypeContains expected actual =
  match expected with
  | VString sv => bytes_Contains jsonActual (bytesOf sv)
  | VObject expectedVal =>
      match actual with
      | VObject actualMap => mapContains actualMap expectedVal
      | _ => false
      end
  | VArray expectedVal =>
      match actual with
      | VArray actualSlice => sliceContains actualSlice expectedVal
      | _ => false
      end
  | _ => bytes_Contains jsonActual jsonExpected
  end.
Proof.
  intros He Ha Ee Ea. unfold compareMessages. rewrite Ee, Ea.
  rewrite (Unmarshal_Marshal expected jsonExpected He Ee).
  rewrite (Unmarshal_Marshal actual jsonActual Ha Ea). reflexivity.
Qed.

Lemma compareMessages_unsupported (matchType : MatchType) (expected actual : Value) :
  Marshal expected = None \/ Marshal actual = None ->
  compareMessages matchType expected actual = false.
Proof.
  unfold compareMessages. intros [-> | ->]; [reflexivity|].
  destruct (Marshal expected); reflexivity.
Qed.

Lemma compareMessages_other (matchType : MatchType) (expected actual : Value) :
  matchType <> MatchTypeExact -> matchType <> MatchTypeContains ->
  compareMessages matchType expected actual = false.
Proof.
  intros H1 H2. unfold compareMessages.
  apply String.eqb_neq in H1. apply String.eqb_neq in H2. rewrite H1, H2.
  destruct (Marshal expected); [|reflexivity].
  destruct (Marshal actual); reflexivity.
Qed.

(** ** The matcher on small inputs *)

Example marshal_escapes :
  Marshal (VArray [VString "a<b"; VNumber (-12); VNull; VBool true; VObject []])
  = Some (bytesOf "[" ++ quote :: bytesOf "a\u003cb" ++ quote
           :: bytesOf ",-12,null,true,{}]").
Proof. reflexivity. Qed.

Example unmarshal_later_member_stays :
  Unmarshal (bytesOf "{" ++ encodeString "k" ++ bytesOf ":1," ++ encodeString "k"
               ++ bytesOf ":2}")
  = Some (VObject [("k"%string, VNumber 2)]).
Proof. reflexivity. Qed.

Example exact_extra_key_breaks :
  compareMessages MatchTypeExact
    (VObject [("content"%string, VString "hi"); ("role"%string, VString "user")])
    (VObject [("content"%string, VString "hi"); ("extra"%string, VString "x");
              ("role"%string, VString "user")]) = false.
Proof. reflexivity. Qed.

Example contains_extra_key_ignored :
  compareMessages MatchTypeContains
    (VObject [("content"%string, VString "hi"); ("role"%string, VString "user")])
    (VObject [("content"%string, VString "hi"); ("extra"%string, VString "x");
              ("role"%string, VString "user")]) = true.
Proof. reflexivity. Qed.

Example contains_nested_array_length :
  compareMessages MatchTypeContains
    (VObject [("content"%string, VArray [VString "a"; VString "b"])])
    (VObject [("content"%string, VArray [VString "a"; VString "b"; VString "c"])])
  = false.
Proof. reflexivity. Qed.

Example contains_phrase_inside_object :
  compareMessages MatchTypeContains (VString "lo th")
    (VObject [("content"%string, VString "hello there")]) = true.
Proof. reflexivity. Qed.

Example contains_number_by_text :
  compareMessages MatchTypeContains (VNumber 1) (VNumber 213) = true.
Proof. reflexivity. Qed.

(** ** The registry scan *)

Section Scan.

Context {M : Type} (matches : M -> bool).

Lemma scan_firstMatch (ms : list M) : firstMatch ms matches (scan matches ms).
Proof.
  induction ms as [|mock ms IH]; simpl.
  - intros ? [].
  - destruct (matches mock) eqn:Hm; simpl.
    + exists 0. repeat split; [exact Hm | intros j mj Hj; lia].
    + destruct (scan matches ms) as [found|]; simpl in *.
      * destruct IH as [i [Hi [Hf Hlow]]]. exists (S i). repeat split; auto.
        intros [|j] mj Hj Hnth; simpl in Hnth.
        -- congruence.
        -- apply (Hlow j); [lia | exact Hnth].
      * intros m [<- | Hin]; auto.
Qed.

Lemma scan_before (before after : list M) (mock : M) :
  (forall m, In m before -> matches m = false) ->
  matches mock = true ->
  scan matches (before ++ mock :: after) = Some mock.
Proof.
  intros Hb Hm. induction before as [|m before IH]; simpl.
  - rewrite Hm. reflexivity.
  - rewrite (Hb m (or_introl eq_refl)). apply IH.
    intros m' Hin. apply Hb. right. exact Hin.
Qed.

Lemma scan_firstMatchWins : firstMatchWins (scan matches) matches.
Proof.
  split; [apply scan_firstMatch | intros; apply scan_before; assumption].
Qed.

Lemma scan_skips (bad : M) : matches bad = false -> skips (scan matches) bad.
Proof.
  intros Hbad before after. induction before as [|m before IH]; simpl.
  - rewrite Hbad. reflexivity.
  - rewrite IH. reflexivity.
Qed.

End Scan.

Ltac scan_eq p ms :=
  generalize p; intros ?;
  induction ms as [|? ? IH]; simpl; [|rewrite IH]; reflexivity.

Lemma OpenAI_find (q : OpenAI.OpenAIProvider) (ms : list OpenAI.OpenAIMock)
    (request : OpenAI.ChatCompletionNewParams) :
  OpenAI.findMatchingMock {| OpenAI.mocks := ms |} request =
  scan (fun mock => OpenAI.requestsMatch q (OpenAI.Match mock) request) ms.
Proof.
  unfold OpenAI.findMatchingMock. cbn [OpenAI.mocks].
  scan_eq (OpenAI.Build_OpenAIProvider ms) ms.
Qed.

Lemma Anthropic_find (q : Anthropic.AnthropicProvider) (ms : list Anthropic.AnthropicMock)
    (request : Anthropic.MessageNewParams) :
  Anthropic.findMatchingMock {| Anthropic.mocks := ms |} request =
  scan (fun mock => Anthropic.requestsMatch q (Anthropic.Match mock) request) ms.
Proof.
  unfold Anthropic.findMatchingMock. cbn [Anthropic.mocks].
  scan_eq (Anthropic.Build_AnthropicProvider ms) ms.
Qed.

Lemma Google_find (q : Google.GoogleProvider) (ms : list Google.GoogleMock)
    (request : Google.GoogleRequestBody) :
  Google.findMatchingMock {| Google.mocks := ms |} request =
  scan (fun mock => Google.requestsMatch q (Google.Match mock) request) ms.
Proof.
  unfold Google.findMatchingMock. cbn [Google.mocks].
  scan_eq (Google.Build_GoogleProvider ms) ms.
Qed.

Lemma GoogleText_find (q : GoogleText.GoogleProvider) (ms : list GoogleText.GoogleMock)
    (request : GoogleText.GoogleRequestBody) :
  GoogleText.findMatchingMock {| GoogleText.mocks := ms |} request =
  scan (fun mock => GoogleText.requestsMatch q (GoogleText.Match mock) request) ms.
Proof.
  unfold GoogleText.findMatchingMock. cbn [GoogleText.mocks].
  scan_eq (GoogleText.Build_GoogleProvider ms) ms.
Qed.

Lemma firstMatchWins_ext {M} (find find' : list M -> option M) (matches : M -> bool) :
  (forall ms, find ms = find' ms) -> firstMatchWins find' matches ->
  firstMatchWins find matches.
Proof.
  intros E [H1 H2]. split.
  - intros ms. rewrite E. apply H1.
  - intros. rewrite E. apply H2; assumption.
Qed.

Lemma skips_ext {M} (find find' : list M -> option M) (bad : M) :
  (forall ms, find ms = find' ms) -> skips find' bad -> skips find bad.
Proof. intros E H before after. rewrite !E. apply H. Qed.

(** ** The Google provider's own comparison *)

Lemma last_message_app {A} (messages : list A) (lastMessage : A) :
  last_message (messages ++ [lastMessage]) = Some lastMessage.
Proof.
  unfold last_message. rewrite length_app. simpl.
  replace (List.length messages + 1 - 1) with (List.length messages + 0) by lia.
  rewrite nth_error_app2 by lia.
  replace (List.length messages + 0 - List.length messages) with 0 by lia.
  reflexivity.
Qed.

Lemma last_message_nonempty {A} (messages : list A) (lastMessage : A) :
  last_message messages = Some lastMessage ->
  Nat.eqb (List.length messages) 0 = false.
Proof. destruct messages; [discriminate | reflexivity]. Qed.

Lemma append_assoc (a b c : string) : ((a ++ b) ++ c = a ++ (b ++ c))%string.
Proof. induction a as [|x a IH]; simpl; [reflexivity | rewrite IH; reflexivity]. Qed.

Lemma append_empty_r (a : string) : (a ++ EmptyString)%string = a.
Proof. induction a as [|x a IH]; simpl; [reflexivity | rewrite IH; reflexivity]. Qed.

Lemma joinText_S (i : nat) (parts : list genai.Part) (str : string) :
  GoogleText.joinText (S i) parts str =
  (str ++ fold_right (fun part acc => " " ++ genai.Text part ++ acc) EmptyString parts)%string.
Proof.
  revert i str. induction parts as [|part parts IH]; intros i str; simpl.
  - rewrite append_empty_r. reflexivity.
  - rewrite IH, !append_assoc. reflexivity.
Qed.

Lemma concat_text (part : genai.Part) (parts : list genai.Part) :
  (genai.Text part
   ++ fold_right (fun part acc => " " ++ genai.Text part ++ acc) EmptyString parts)%string
  = String.concat " " (map genai.Text (part :: parts)).
Proof.
  revert part. induction parts as [|part2 parts IH]; intros part.
  - simpl. apply append_empty_r.
  - change (String.concat " " (map genai.Text (part :: part2 :: parts)))
      with (genai.Text part ++ " "
              ++ String.concat " " (map genai.Text (part2 :: parts)))%string.
    rewrite <- IH. reflexivity.
Qed.

(** The joined text is the parts' text with a space between neighbours. *)
Lemma joinText_concat (parts : list genai.Part) :
  GoogleText.joinText 0 parts EmptyString = String.concat " " (map genai.Text parts).
Proof.
  destruct parts as [|part parts]; [reflexivity|].
  cbn [GoogleText.joinText Nat.ltb Nat.leb]. rewrite joinText_S.
  apply concat_text.
Qed.

(** * The claims *)

(** C1. Dispatch returns the entry of lowest registration index among
    those that match the request, for every registry and conversation of
    every provider; entries after it have no part in the result. *)
Theorem C1_dispatch_returns_first_match :
  (forall q request,
      firstMatchWins
        (fun ms => OpenAI.findMatchingMock {| OpenAI.mocks := ms |} request)
        (fun mock => OpenAI.requestsMatch q (OpenAI.Match mock) request)) /\
  (forall q request,
      firstMatchWins
        (fun ms => Anthropic.findMatchingMock {| Anthropic.mocks := ms |} request)
        (fun mock => Anthropic.requestsMatch q (Anthropic.Match mock) request)) /\
  (forall q request,
      firstMatchWins
        (fun ms => Google.findMatchingMock {| Google.mocks := ms |} request)
        (fun mock => Google.requestsMatch q (Google.Match mock) request)) /\
  (forall q request,
      firstMatchWins
        (fun ms => GoogleText.findMatchingMock {| GoogleText.mocks := ms |} request)
        (fun mock => GoogleText.requestsMatch q (GoogleText.Match mock) request)).
Proof.
  split; [|split; [|split]]; intros q request.
  - apply (firstMatchWins_ext _ _ _ (fun ms => OpenAI_find q ms request)).
    apply scan_firstMatchWins.
  - apply (firstMatchWins_ext _ _ _ (fun ms => Anthropic_find q ms request)).
    apply scan_firstMatchWins.
  - apply (firstMatchWins_ext _ _ _ (fun ms => Google_find q ms request)).
    apply scan_firstMatchWins.
  - apply (firstMatchWins_ext _ _ _ (fun ms => GoogleText_find q ms request)).
    apply scan_firstMatchWins.
Qed.

(** Scenario: two entries that expect the same phrase; the first one is
    returned. *)
Lemma C1_witness :
  let A := {| OpenAI.Name := "A";
              OpenAI.Match := {| OpenAI.MatchType := MatchTypeContains;
                                 OpenAI.Message := VString "foo" |};
              OpenAI.Response := VString "first" |} in
  let B := {| OpenAI.Name := "B";
              OpenAI.Match := {| OpenAI.MatchType := MatchTypeContains;
                                 OpenAI.Message := VString "foo" |};
              OpenAI.Response := VString "second" |} in
  let request := {| OpenAI.Messages := [VString "a foo b"] |} in
  OpenAI.requestsMatch {| OpenAI.mocks := [] |} (OpenAI.Match B) request = true /\
  OpenAI.findMatchingMock {| OpenAI.mocks := [A; B] |} request = Some A.
Proof.
  intros A B request. split; [reflexivity|].
  apply (proj2 (proj1 C1_dispatch_returns_first_match {| OpenAI.mocks := [] |} request)
           [] A [B]).
  - intros m [].
  - reflexivity.
Defined.

(** C2, as the claim has it, fails on its own example: every key of the
    expected object is in the actual one and the matcher holds on each
    pair of values, yet the objects do not match, for the nested string
    is compared for equality. *)
Lemma C2_counterexample :
  let expected := [("content"%string, VString "hello"); ("role"%string, VString "user")] in
  let actual := [("content"%string, VString "hello there"); ("extra"%string, VString "x");
                 ("role"%string, VString "user")] in
  (forall key valB, In (key, valB) expected ->
     exists valA, lookup key actual = Some valA /\
                  compareMessages MatchTypeContains valB valA = true) /\
  compareMessages MatchTypeContains (VObject expected) (VObject actual) = false.
Proof.
  split; [|reflexivity].
  intros key valB [E | [E | []]]; injection E as <- <-; eexists; split; reflexivity.
Qed.

(** C2, amended. Under "contains" with an expected object, the match
    succeeds exactly when the actual value is an object that has every key
    of the expected one with, under each, a value the nested comparison
    accepts; keys only the actual object has are ignored.  The nested
    comparison accepts null for null only, a string, number or boolean for
    the equal value only, an object by the same rule, and an array as
    [sliceContains] has it. *)
Theorem C2_object_contains_nested_equality :
  (forall expected actual,
      wf (VObject expected) = true -> wf actual = true ->
      (compareMessages MatchTypeContains (VObject expected) actual = true <->
       exists actualMap,
         actual = VObject actualMap /\
         forall key valB, In (key, valB) expected ->
           exists valA, lookup key actualMap = Some valA /\
                        itemContains valA valB = true)) /\
  (forall valA, itemContains valA VNull = true <-> valA = VNull) /\
  (forall valA s, wf valA = true ->
      (itemContains valA (VString s) = true <-> valA = VString s)) /\
  (forall valA n, wf valA = true ->
      (itemContains valA (VNumber n) = true <-> valA = VNumber n)) /\
  (forall valA b, wf valA = true ->
      (itemContains valA (VBool b) = true <-> valA = VBool b)) /\
  (forall valA b,
      itemContains valA (VObject b) = true <->
      exists a, valA = VObject a /\
                forall key valB, In (key, valB) b ->
                  exists v, lookup key a = Some v /\ itemContains v valB = true) /\
  (forall valA b,
      itemContains valA (VArray b) = true <->
      exists a, valA = VArray a /\ sliceContains a b = true).
Proof.
  split; [|split; [|split; [|split; [|split; [|split]]]]].
  - intros expected actual He Ha.
    destruct (wf_Marshal _ He) as [je Ee]. destruct (wf_Marshal _ Ha) as [ja Ea].
    rewrite (compareMessages_Contains _ _ je ja He Ha Ee Ea).
    destruct actual as [| | | |actualMap| |];
      try (split; [discriminate | intros [? [? _]]; discriminate]).
    rewrite mapContains_spec. split.
    + intros H. exists actualMap. split; [reflexivity | exact H].
    + intros [m [E H]]. injection E as ->. exact H.
  - apply itemContains_null.
  - intros valA s Ha. apply itemContains_scalar; [exact Ha | reflexivity | exact I].
  - intros valA n Ha. apply itemContains_scalar; [exact Ha | reflexivity | exact I].
  - intros valA b Ha. apply itemContains_scalar; [exact Ha | reflexivity | exact I].
  - intros valA b. destruct valA as [| | | |a| |];
      try (split; [discriminate | intros [? [? _]]; discriminate]).
    rewrite itemContains_object, mapContains_spec. split.
    + intros H. exists a. split; [reflexivity | exact H].
    + intros [m [E H]]. injection E as ->. exact H.
  - intros valA b. destruct valA as [| | | | |a|];
      try (split; [destruct b; discriminate | intros [? [? _]]; discriminate]).
    rewrite itemContains_array. split.
    + intros H. exists a. split; [reflexivity | exact H].
    + intros [m [E H]]. injection E as ->. exact H.
Qed.

Lemma C2_witness :
  let expected := [("content"%string, VString "hello"); ("role"%string, VString "user")] in
  let actual := VObject [("content"%string, VString "hello"); ("extra"%string, VString "x");
                         ("role"%string, VString "user")] in
  wf (VObject expected) = true /\ wf actual = true /\
  exists actualMap,
    actual = VObject actualMap /\
    forall key valB, In (key, valB) expected ->
      exists valA, lookup key actualMap = Some valA /\ itemContains valA valB = true.
Proof.
  intros expected actual. split; [reflexivity|]. split; [reflexivity|].
  apply (proj1 (proj1 C2_object_contains_nested_equality expected actual eq_refl eq_refl)).
  reflexivity.
Defined.

(** C3. A conversation without messages matches no entry, whatever the
    entry's match mode and expected value, and dispatching it finds
    nothing in any registry. *)
Theorem C3_empty_conversation_not_found :
  (forall p expected,
      OpenAI.requestsMatch p expected {| OpenAI.Messages := [] |} = false) /\
  (forall p, OpenAI.findMatchingMock p {| OpenAI.Messages := [] |} = None) /\
  (forall p expected,
      Anthropic.requestsMatch p expected {| Anthropic.Messages := [] |} = false) /\
  (forall p, Anthropic.findMatchingMock p {| Anthropic.Messages := [] |} = None) /\
  (forall p expected,
      Google.requestsMatch p expected {| Google.Contents := [] |} = false) /\
  (forall p, Google.findMatchingMock p {| Google.Contents := [] |} = None) /\
  (forall p expected,
      GoogleText.requestsMatch p expected {| GoogleText.Contents := [] |} = false) /\
  (forall p, GoogleText.findMatchingMock p {| GoogleText.Contents := [] |} = None).
Proof.
  split; [|split; [|split; [|split; [|split; [|split; [|split]]]]]];
    try reflexivity; intros p.
  - unfold OpenAI.findMatchingMock. generalize (OpenAI.mocks p) as ms.
    induction ms as [|m ms IH]; [reflexivity | exact IH].
  - unfold Anthropic.findMatchingMock. generalize (Anthropic.mocks p) as ms.
    induction ms as [|m ms IH]; [reflexivity | exact IH].
  - unfold Google.findMatchingMock. generalize (Google.mocks p) as ms.
    induction ms as [|m ms IH]; [reflexivity | exact IH].
  - unfold GoogleText.findMatchingMock. generalize (GoogleText.mocks p) as ms.
    induction ms as [|m ms IH]; [reflexivity | exact IH].
Qed.

(** C4. Under "contains" with an expected string [s], the match succeeds
    exactly when [s] occurs in the encoded form of the actual value,
    whatever the variant of that value. *)
Theorem C4_contains_string_in_serialized_actual :
  forall (s : string) (actual : Value),
    wf actual = true ->
    (compareMessages MatchTypeContains (VString s) actual = true <->
     exists jsonActual pre post,
       Marshal actual = Some jsonActual /\ jsonActual = pre ++ bytesOf s ++ post).
Proof.
  intros s actual Ha. destruct (wf_Marshal actual Ha) as [jsonActual Ea].
  rewrite (compareMessages_Contains (VString s) actual (encodeString s) jsonActual
             eq_refl Ha eq_refl Ea).
  rewrite bytes_Contains_spec. split.
  - intros [pre [post H]]. exists jsonActual, pre, post. auto.
  - intros [ja [pre [post [E H]]]]. exists pre, post. congruence.
Qed.

Lemma C4_witness :
  let actual := VObject [("content"%string, VString "hello there")] in
  wf actual = true /\
  exists jsonActual pre post,
    Marshal actual = Some jsonActual /\ jsonActual = pre ++ bytesOf "hello" ++ post.
Proof.
  intros actual. split; [reflexivity|].
  apply (proj1 (C4_contains_string_in_serialized_actual "hello" actual eq_refl)).
  reflexivity.
Defined.

(** C5, as the claim has it, fails on numbers: zero and negative zero
    are equal as numbers, yet they do not match, for the encoder writes
    them [0] and [-0] and it is the two texts that are compared. *)
Lemma C5_counterexample :
  numericValue NegativeZero = numericValue (Integer 0) /\
  wf (VNumber NegativeZero) = true /\ wf (VNumber (Integer 0)) = true /\
  compareMessages MatchTypeExact (VNumber NegativeZero) (VNumber (Integer 0)) = false.
Proof. repeat split. Qed.

(** C5, amended. Under "exact" the match succeeds exactly when the two
    values have the same encoding, which they have exactly when they are
    the same tree: the same variant at every node, the same keys with the
    same values, the same items at the same positions, the same string,
    and numbers of the same text.  The order a map's entries are listed in
    has no part in it.  Two numbers have the same text exactly when they
    are equal as numbers and agree on being negative zero. *)
Theorem C5_exact_compares_serialized_text :
  (forall expected actual : Value,
      wf expected = true -> wf actual = true ->
      (compareMessages MatchTypeExact expected actual = true <-> expected = actual)) /\
  (forall (m m' : list (string * Value)) (other : Value),
      sortByKey m = sortByKey m' ->
      compareMessages MatchTypeExact (VObject m) other =
      compareMessages MatchTypeExact (VObject m') other /\
      compareMessages MatchTypeExact other (VObject m) =
      compareMessages MatchTypeExact other (VObject m')) /\
  (forall x y : Number,
      compareMessages MatchTypeExact (VNumber x) (VNumber y) = true <->
      numericValue x = numericValue y /\ (x = NegativeZero <-> y = NegativeZero)).
Proof.
  assert (Hiff : forall expected actual : Value,
             wf expected = true -> wf actual = true ->
             (compareMessages MatchTypeExact expected actual = true <->
              expected = actual)).
  { intros expected actual He Ha. rewrite compareMessages_Exact.
    destruct (wf_Marshal expected He) as [je Ee].
    destruct (wf_Marshal actual Ha) as [ja Ea]. rewrite Ee, Ea, bytes_Equal_eq.
    split.
    - intros <-. eapply Marshal_inj; eassumption.
    - intros <-. congruence. }
  split; [exact Hiff | split].
  - intros m m' other E.
    assert (Em : Marshal (VObject m) = Marshal (VObject m')).
    { rewrite <- (Marshal_sortByKey m), <- (Marshal_sortByKey m'), E. reflexivity. }
    rewrite !compareMessages_Exact, Em. split; reflexivity.
  - intros x y. rewrite (Hiff (VNumber x) (VNumber y) eq_refl eq_refl). split.
    + intros E. injection E as ->. split; [reflexivity | tauto].
    + intros [Hv Hz]. destruct x as [zx|], y as [zy|]; cbn [numericValue] in Hv.
      * subst zy. reflexivity.
      * discriminate (proj2 Hz eq_refl).
      * discriminate (proj1 Hz eq_refl).
      * reflexivity.
Qed.

Lemma C5_witness :
  let expected := VObject [("content"%string, VString "hi"); ("role"%string, VString "user")] in
  let actual := VObject [("content"%string, VString "hi"); ("extra"%string, VNumber 1);
                         ("role"%string, VString "user")] in
  let listed := [("role"%string, VString "user"); ("content"%string, VString "hi")] in
  wf expected = true /\ wf actual = true /\
  compareMessages MatchTypeExact expected expected = true /\
  expected <> actual /\
  compareMessages MatchTypeExact (VObject listed) expected = true.
Proof.
  intros expected actual listed.
  pose proof (proj1 C5_exact_compares_serialized_text expected expected eq_refl eq_refl)
    as Hsame.
  pose proof (proj1 C5_exact_compares_serialized_text expected actual eq_refl eq_refl)
    as Hdiff.
  split; [reflexivity|]. split; [reflexivity|]. split; [|split].
  - apply (proj2 Hsame). reflexivity.
  - intros E. apply (proj2 Hdiff) in E. discriminate E.
  - rewrite (proj1 (proj1 (proj2 C5_exact_compares_serialized_text)
                      listed
                      [("content"%string, VString "hi"); ("role"%string, VString "user")]
                      expected eq_refl)).
    apply (proj2 Hsame). reflexivity.
Defined.

(** C6, as the claim has it, fails for an empty expected array: it
    matches an array of any length. *)
Lemma C6_counterexample :
  let e := @nil Value in
  let a := [VNumber 1] in
  List.length a <> List.length e /\
  compareMessages MatchTypeContains (VArray e) (VArray a) = true.
Proof. split; [discriminate | reflexivity]. Qed.

(** C6, amended. Under "contains" an empty expected array matches every
    actual array; a non-empty expected array fails against an actual
    array of another length, and against one of the same length it
    matches exactly when the items match position by position. *)
Theorem C6_array_contains_same_length :
  forall e a : list Value,
    wf (VArray e) = true -> wf (VArray a) = true ->
    (e = [] -> compareMessages MatchTypeContains (VArray e) (VArray a) = true) /\
    (e <> [] -> List.length a <> List.length e ->
     compareMessages MatchTypeContains (VArray e) (VArray a) = false) /\
    (e <> [] -> List.length a = List.length e ->
     (compareMessages MatchTypeContains (VArray e) (VArray a) = true <->
      forall i itemA itemB,
        nth_error a i = Some itemA -> nth_error e i = Some itemB ->
        itemContains itemA itemB = true)).
Proof.
  intros e a He Ha.
  destruct (wf_Marshal _ He) as [je Ee]. destruct (wf_Marshal _ Ha) as [ja Ea].
  rewrite (compareMessages_Contains _ _ je ja He Ha Ee Ea).
  unfold sliceContains. repeat split.
  - intros ->. reflexivity.
  - intros Hne Hlen. destruct e as [|y e]; [congruence|].
    apply Nat.eqb_neq in Hlen. rewrite Hlen. reflexivity.
  - destruct e as [|y e]; [congruence|].
    rename H0 into Hlen. rewrite Hlen, Nat.eqb_refl. simpl negb. cbv iota.
    apply (proj1 (sliceItems_spec a (y :: e) Hlen)).
  - destruct e as [|y e]; [congruence|].
    rename H0 into Hlen. rewrite Hlen, Nat.eqb_refl. simpl negb. cbv iota.
    apply (proj2 (sliceItems_spec a (y :: e) Hlen)).
Qed.

Lemma C6_witness :
  let e := [VString "a"; VString "b"] in
  let a := [VString "a"; VString "b"; VString "c"] in
  wf (VArray e) = true /\ wf (VArray a) = true /\ e <> [] /\
  List.length a <> List.length e /\
  compareMessages MatchTypeContains (VArray e) (VArray a) = false.
Proof.
  intros e a.
  assert (Hne : e <> []) by discriminate.
  assert (Hlen : List.length a <> List.length e) by discriminate.
  split; [reflexivity|]. split; [reflexivity|]. split; [exact Hne|].
  split; [exact Hlen|].
  exact (proj1 (proj2 (C6_array_contains_same_length e a eq_refl eq_refl)) Hne Hlen).
Defined.

(** C7, as the claim has it, fails at the top level: the string "null"
    is not null, yet an expected null matches it. *)
Lemma C7_counterexample :
  VString "null" <> VNull /\
  compareMessages MatchTypeContains VNull (VString "null") = true.
Proof. split; [discriminate | reflexivity]. Qed.

(** C7, amended. Under "contains" an expected null at the top level
    matches exactly when the text null occurs in the encoded form of the
    actual value; an expected null under an object key or at an array
    position matches exactly when the actual value there is null. *)
Theorem C7_null_contains :
  (forall actual,
      wf actual = true ->
      (compareMessages MatchTypeContains VNull actual = true <->
       exists jsonActual pre post,
         Marshal actual = Some jsonActual /\
         jsonActual = pre ++ bytesOf "null" ++ post)) /\
  (forall valA, itemContains valA VNull = true <-> valA = VNull) /\
  (forall key expected actual,
      wf (VObject expected) = true -> wf (VObject actual) = true ->
      In (key, VNull) expected ->
      compareMessages MatchTypeContains (VObject expected) (VObject actual) = true ->
      lookup key actual = Some VNull).
Proof.
  split; [|split; [exact itemContains_null|]].
  - intros actual Ha. destruct (wf_Marshal actual Ha) as [jsonActual Ea].
    rewrite (compareMessages_Contains VNull actual (bytesOf "null") jsonActual
               eq_refl Ha eq_refl Ea).
    rewrite bytes_Contains_spec. split.
    + intros [pre [post H]]. exists jsonActual, pre, post. auto.
    + intros [ja [pre [post [E H]]]]. exists pre, post. congruence.
  - intros key expected actual He Ha Hin.
    destruct (wf_Marshal _ He) as [je Ee]. destruct (wf_Marshal _ Ha) as [ja Ea].
    rewrite (compareMessages_Contains _ _ je ja He Ha Ee Ea).
    intros H. destruct (proj1 (mapContains_spec actual expected) H key VNull Hin)
      as [valA [Hl Hc]].
    apply itemContains_null in Hc. congruence.
Qed.

Lemma C7_witness :
  let actual := VObject [("a"%string, VNull)] in
  wf actual = true /\
  compareMessages MatchTypeContains VNull actual = true /\
  lookup "a" [("a"%string, VNull)] = Some VNull.
Proof.
  intros actual. split; [reflexivity|]. split.
  - apply (proj2 (proj1 C7_null_contains actual eq_refl)).
    exists (bytesOf "{" ++ encodeString "a" ++ bytesOf ":null}").
    exists (bytesOf "{" ++ encodeString "a" ++ bytesOf ":"), (bytesOf "}").
    split; reflexivity.
  - apply (proj2 (proj2 C7_null_contains) "a"%string [("a"%string, VNull)]
             [("a"%string, VNull)] eq_refl eq_refl (or_introl eq_refl)).
    reflexivity.
Defined.

(** C8. The matcher returns a boolean on every input: a value the
    encoder rejects, on either side and under every mode, gives [false].
    An entry whose match value is rejected matches no request, and the
    scan goes on past it: the first matching entry after it is returned,
    and the answer is the one the registry without the entry gives. *)
Theorem C8_malformed_value_is_non_match :
  (forall matchType expected actual,
      Marshal expected = None \/ Marshal actual = None ->
      compareMessages matchType expected actual = false) /\
  (forall bad request,
      Marshal (OpenAI.Message (OpenAI.Match bad)) = None ->
      skips (fun ms => OpenAI.findMatchingMock {| OpenAI.mocks := ms |} request) bad) /\
  (forall bad request,
      Marshal (Anthropic.Message (Anthropic.Match bad)) = None ->
      skips (fun ms => Anthropic.findMatchingMock {| Anthropic.mocks := ms |} request) bad) /\
  (forall q before bad mid good after request,
      Marshal (OpenAI.Message (OpenAI.Match bad)) = None ->
      (forall m, In m (before ++ mid) ->
                 OpenAI.requestsMatch q (OpenAI.Match m) request = false) ->
      OpenAI.requestsMatch q (OpenAI.Match good) request = true ->
      OpenAI.requestsMatch q (OpenAI.Match bad) request = false /\
      OpenAI.findMatchingMock
        {| OpenAI.mocks := before ++ bad :: mid ++ good :: after |} request = Some good) /\
  (forall q before bad mid good after request,
      Marshal (Anthropic.Message (Anthropic.Match bad)) = None ->
      (forall m, In m (before ++ mid) ->
                 Anthropic.requestsMatch q (Anthropic.Match m) request = false) ->
      Anthropic.requestsMatch q (Anthropic.Match good) request = true ->
      Anthropic.requestsMatch q (Anthropic.Match bad) request = false /\
      Anthropic.findMatchingMock
        {| Anthropic.mocks := before ++ bad :: mid ++ good :: after |} request
      = Some good).
Proof.
  assert (HO : forall q bad request,
             Marshal (OpenAI.Message (OpenAI.Match bad)) = None ->
             OpenAI.requestsMatch q (OpenAI.Match bad) request = false).
  { intros q bad request Hbad. unfold OpenAI.requestsMatch.
    destruct (Nat.eqb _ 0); [reflexivity|].
    destruct (last_message _); [|reflexivity].
    apply compareMessages_unsupported. left. exact Hbad. }
  assert (HA : forall q bad request,
             Marshal (Anthropic.Message (Anthropic.Match bad)) = None ->
             Anthropic.requestsMatch q (Anthropic.Match bad) request = false).
  { intros q bad request Hbad. unfold Anthropic.requestsMatch.
    destruct (Nat.eqb _ 0); [reflexivity|].
    destruct (last_message _); [|reflexivity].
    apply compareMessages_unsupported. left. exact Hbad. }
  split; [exact compareMessages_unsupported|].
  split; [|split; [|split]].
  - intros bad request Hbad. set (q := {| OpenAI.mocks := [] |}).
    apply (skips_ext _ _ _ (fun ms => OpenAI_find q ms request)).
    apply scan_skips. apply HO. exact Hbad.
  - intros bad request Hbad. set (q := {| Anthropic.mocks := [] |}).
    apply (skips_ext _ _ _ (fun ms => Anthropic_find q ms request)).
    apply scan_skips. apply HA. exact Hbad.
  - intros q before bad mid good after request Hbad Hnone Hgood.
    split; [apply HO; exact Hbad|].
    rewrite (OpenAI_find q).
    replace (before ++ bad :: mid ++ good :: after)
      with ((before ++ bad :: mid) ++ good :: after)
      by (rewrite <- app_assoc; reflexivity).
    apply scan_before; [|exact Hgood].
    intros m Hin. apply in_app_or in Hin. destruct Hin as [Hin | [<- | Hin]].
    + apply Hnone. apply in_or_app. left. exact Hin.
    + apply HO. exact Hbad.
    + apply Hnone. apply in_or_app. right. exact Hin.
  - intros q before bad mid good after request Hbad Hnone Hgood.
    split; [apply HA; exact Hbad|].
    rewrite (Anthropic_find q).
    replace (before ++ bad :: mid ++ good :: after)
      with ((before ++ bad :: mid) ++ good :: after)
      by (rewrite <- app_assoc; reflexivity).
    apply scan_before; [|exact Hgood].
    intros m Hin. apply in_app_or in Hin. destruct Hin as [Hin | [<- | Hin]].
    + apply Hnone. apply in_or_app. left. exact Hin.
    + apply HA. exact Hbad.
    + apply Hnone. apply in_or_app. right. exact Hin.
Qed.

Lemma C8_witness :
  let bad := {| OpenAI.Name := "bad";
                OpenAI.Match := {| OpenAI.MatchType := MatchTypeContains;
                                   OpenAI.Message := VArray [VUnsupported] |};
                OpenAI.Response := VNull |} in
  let good := {| OpenAI.Name := "good";
                 OpenAI.Match := {| OpenAI.MatchType := MatchTypeContains;
                                    OpenAI.Message := VString "foo" |};
                 OpenAI.Response := VString "canned" |} in
  let request := {| OpenAI.Messages := [VString "foo"] |} in
  compareMessages MatchTypeExact (VArray [VUnsupported]) (VString "foo") = false /\
  OpenAI.findMatchingMock {| OpenAI.mocks := [bad; good] |} request = Some good.
Proof.
  intros bad good request. split.
  - apply (proj1 C8_malformed_value_is_non_match). left. reflexivity.
  - refine (proj2 (proj1 (proj2 (proj2 (proj2 C8_malformed_value_is_non_match)))
                     {| OpenAI.mocks := [] |} [] bad [] good [] request eq_refl _ eq_refl)).
    intros m [].
Defined.

(** C9, as the claim has it, fails for the Google provider that compares
    the parts' text: it accepts a longer text the shared matcher rejects,
    and rejects for the role alone a content the shared matcher accepts. *)
Lemma C9_counterexample :
  let p := {| GoogleText.mocks := [] |} in
  let content (role text : string) :=
    {| genai.Parts := [{| genai.Text := text |}]; genai.Role := role |} in
  let expects c :=
    {| GoogleText.MatchType := MatchTypeContains; GoogleText.Content := c |} in
  let request c := {| GoogleText.Contents := [c] |} in
  (GoogleText.requestsMatch p (expects (content "user"%string "hello"%string))
     (request (content "user"%string "hello there"%string)) = true /\
   compareMessages MatchTypeContains
     (genai.ContentJSON (content "user"%string "hello"%string))
     (genai.ContentJSON (content "user"%string "hello there"%string)) = false) /\
  (GoogleText.requestsMatch p (expects (content EmptyString "hi"%string))
     (request (content "user"%string "hi"%string)) = false /\
   compareMessages MatchTypeContains
     (genai.ContentJSON (content EmptyString "hi"%string))
     (genai.ContentJSON (content "user"%string "hi"%string)) = true).
Proof. repeat split. Qed.

(** C9, amended. The OpenAI and Anthropic providers, and the Google
    provider that calls [compareMessages], decide by the shared matcher on
    the entry's expected value and the last message.  The Google provider
    that compares the content itself agrees with the shared matcher under
    "exact"; under "contains" it matches exactly when the two roles are
    equal and the space-joined text of the last content's parts contains
    that of the expected content's parts. *)
Theorem C9_providers_and_shared_matcher :
  (forall p expected request lastMessage,
      last_message (OpenAI.Messages request) = Some lastMessage ->
      OpenAI.requestsMatch p expected request =
      compareMessages (OpenAI.MatchType expected) (OpenAI.Message expected) lastMessage) /\
  (forall p expected request lastMessage,
      last_message (Anthropic.Messages request) = Some lastMessage ->
      Anthropic.requestsMatch p expected request =
      compareMessages (Anthropic.MatchType expected) (Anthropic.Message expected)
        lastMessage) /\
  (forall p expected request lastMessage,
      last_message (Google.Contents request) = Some lastMessage ->
      Google.requestsMatch p expected request =
      compareMessages (Google.MatchType expected)
        (genai.ContentJSON (Google.Content expected)) (genai.ContentJSON lastMessage)) /\
  (forall p expected request lastMessage,
      last_message (GoogleText.Contents request) = Some lastMessage ->
      (GoogleText.MatchType expected = MatchTypeExact ->
       GoogleText.requestsMatch p expected request =
       compareMessages MatchTypeExact
         (genai.ContentJSON (GoogleText.Content expected))
         (genai.ContentJSON lastMessage)) /\
      (GoogleText.MatchType expected = MatchTypeContains ->
       GoogleText.requestsMatch p expected request =
       String.eqb (genai.Role lastMessage) (genai.Role (GoogleText.Content expected)) &&
       strings_Contains
         (String.concat " " (map genai.Text (genai.Parts lastMessage)))
         (String.concat " " (map genai.Text (genai.Parts (GoogleText.Content expected)))))).
Proof.
  split; [|split; [|split]]; intros p expected request lastMessage Hlast;
    pose proof (last_message_nonempty _ _ Hlast) as Hlen.
  - unfold OpenAI.requestsMatch. rewrite Hlen, Hlast. reflexivity.
  - unfold Anthropic.requestsMatch. rewrite Hlen, Hlast. reflexivity.
  - unfold Google.requestsMatch. rewrite Hlen, Hlast. reflexivity.
  - unfold GoogleText.requestsMatch. rewrite Hlen, Hlast. split; intros ->.
    + rewrite compareMessages_Exact. cbn [String.eqb Ascii.eqb Bool.eqb].
      destruct (Marshal (genai.ContentJSON (GoogleText.Content expected)));
        reflexivity.
    + change (String.eqb MatchTypeContains MatchTypeExact) with false.
      change (String.eqb MatchTypeContains MatchTypeContains) with true.
      cbv iota. rewrite !joinText_concat.
      destruct (String.eqb (genai.Role lastMessage)
                  (genai.Role (GoogleText.Content expected))); reflexivity.
Qed.

Lemma C9_witness :
  let p := {| GoogleText.mocks := [] |} in
  let lastMessage :=
    {| genai.Parts := [{| genai.Text := "hello" |}; {| genai.Text := "there" |}];
       genai.Role := "user" |} in
  let expected :=
    {| GoogleText.MatchType := MatchTypeContains;
       GoogleText.Content :=
         {| genai.Parts := [{| genai.Text := "lo th" |}]; genai.Role := "user" |} |} in
  let request :=
    {| GoogleText.Contents :=
         [{| genai.Parts := []; genai.Role := "model" |}; lastMessage] |} in
  last_message (GoogleText.Contents request) = Some lastMessage /\
  GoogleText.requestsMatch p expected request = true.
Proof.
  intros p lastMessage expected request. split; [reflexivity|].
  rewrite (proj2 (proj2 (proj2 (proj2 C9_providers_and_shared_matcher))
                    p expected request lastMessage eq_refl) eq_refl).
  reflexivity.
Defined.

(** C10. Under a match type that is neither "exact" nor "contains" the
    matcher returns [false] for every pair of values, so an entry with
    such a match type matches no request of any provider and the scan
    passes over it. *)
Theorem C10_unknown_match_type_never_matches :
  (forall matchType expected actual,
      matchType <> MatchTypeExact -> matchType <> MatchTypeContains ->
      compareMessages matchType expected actual = false) /\
  (forall p expected request,
      OpenAI.MatchType expected <> MatchTypeExact ->
      OpenAI.MatchType expected <> MatchTypeContains ->
      OpenAI.requestsMatch p expected request = false) /\
  (forall p expected request,
      Anthropic.MatchType expected <> MatchTypeExact ->
      Anthropic.MatchType expected <> MatchTypeContains ->
      Anthropic.requestsMatch p expected request = false) /\
  (forall p expected request,
      Google.MatchType expected <> MatchTypeExact ->
      Google.MatchType expected <> MatchTypeContains ->
      Google.requestsMatch p expected request = false) /\
  (forall p expected request,
      GoogleText.MatchType expected <> MatchTypeExact ->
      GoogleText.MatchType expected <> MatchTypeContains ->
      GoogleText.requestsMatch p expected request = false) /\
  (forall bad request,
      OpenAI.MatchType (OpenAI.Match bad) <> MatchTypeExact ->
      OpenAI.MatchType (OpenAI.Match bad) <> MatchTypeContains ->
      skips (fun ms => OpenAI.findMatchingMock {| OpenAI.mocks := ms |} request) bad).
Proof.
  assert (HO : forall p expected request,
             OpenAI.MatchType expected <> MatchTypeExact ->
             OpenAI.MatchType expected <> MatchTypeContains ->
             OpenAI.requestsMatch p expected request = false).
  { intros p expected request H1 H2. unfold OpenAI.requestsMatch.
    destruct (Nat.eqb _ 0); [reflexivity|].
    destruct (last_message _); [|reflexivity].
    apply compareMessages_other; assumption. }
  split; [exact compareMessages_other|].
  split; [exact HO|].
  split; [|split; [|split]].
  - intros p expected request H1 H2. unfold Anthropic.requestsMatch.
    destruct (Nat.eqb _ 0); [reflexivity|].
    destruct (last_message _); [|reflexivity].
    apply compareMessages_other; assumption.
  - intros p expected request H1 H2. unfold Google.requestsMatch.
    destruct (Nat.eqb _ 0); [reflexivity|].
    destruct (last_message _); [|reflexivity].
    apply compareMessages_other; assumption.
  - intros p expected request H1 H2. unfold GoogleText.requestsMatch.
    apply String.eqb_neq in H1. apply String.eqb_neq in H2. rewrite H1, H2.
    destruct (Nat.eqb _ 0); reflexivity.
  - intros bad request H1 H2. set (q := {| OpenAI.mocks := [] |}).
    apply (skips_ext _ _ _ (fun ms => OpenAI_find q ms request)).
    apply scan_skips. apply HO; assumption.
Qed.

Lemma C10_witness :
  let unset := {| OpenAI.Name := "unset";
                  OpenAI.Match := {| OpenAI.MatchType := EmptyString;
                                     OpenAI.Message := VString "foo" |};
                  OpenAI.Response := VNull |} in
  let request := {| OpenAI.Messages := [VString "foo"] |} in
  compareMessages "exactly"%string (VString "foo") (VString "foo") = false /\
  OpenAI.findMatchingMock {| OpenAI.mocks := [unset] |} request = None.
Proof.
  intros unset request. split.
  - apply (proj1 C10_unknown_match_type_never_matches); discriminate.
  - assert (H1 : OpenAI.MatchType (OpenAI.Match unset) <> MatchTypeExact) by discriminate.
    assert (H2 : OpenAI.MatchType (OpenAI.Match unset) <> MatchTypeContains)
      by discriminate.
    pose proof (proj2 (proj2 (proj2 (proj2 (proj2
      C10_unknown_match_type_never_matches)))) unset request H1 H2 [] []) as H.
    exact H.
Defined.

(** * Further properties *)

(** ** Keys in ascending order *)

Lemma ltb_trans (a b c : string) :
  String.ltb a b = true -> String.ltb b c = true -> String.ltb a c = true.
Proof.
  unfold String.ltb. intros Hab Hbc.
  destruct (String.compare a b) eqn:Eab; try discriminate.
  destruct (String.compare b c) eqn:Ebc; try discriminate.
  apply OrderedTypeEx.String_as_OT.cmp_lt in Eab.
  apply OrderedTypeEx.String_as_OT.cmp_lt in Ebc.
  pose proof (OrderedTypeEx.String_as_OT.lt_trans _ _ _ Eab Ebc) as Hac.
  apply OrderedTypeEx.String_as_OT.cmp_lt in Hac.
  unfold OrderedTypeEx.String_as_OT.cmp in Hac. rewrite Hac. reflexivity.
Qed.

Lemma ltb_neq (a b : string) : String.ltb a b = true -> String.eqb b a = false.
Proof.
  unfold String.ltb. intros H.
  destruct (String.compare a b) eqn:E; try discriminate.
  apply OrderedTypeEx.String_as_OT.cmp_lt in E.
  apply String.eqb_neq. intros ->.
  exact (OrderedTypeEx.String_as_OT.lt_not_eq _ _ E eq_refl).
Qed.

Lemma ascending_head {A} (kv : string * A) (m : list (string * A)) :
  ascending (kv :: m) = true ->
  forall kv', In kv' m -> String.ltb (fst kv) (fst kv') = true.
Proof.
  revert kv. induction m as [|kv1 m IH]; intros kv H kv' Hin; [destruct Hin|].
  cbn [ascending] in H. apply andb_true_iff in H. destruct H as [Hk Hm].
  destruct Hin as [<- | Hin]; [exact Hk|].
  eapply ltb_trans; [exact Hk | apply (IH kv1 Hm kv' Hin)].
Qed.

(** In a map listed by ascending key, every entry is found under its
    key. *)
Lemma ascending_lookup (m : list (string * Value)) (k : string) (v : Value) :
  ascending m = true -> In (k, v) m -> lookup k m = Some v.
Proof.
  induction m as [|[k1 v1] m IH]; intros Hasc Hin; [destruct Hin|].
  cbn [lookup]. destruct Hin as [E | Hin].
  - injection E as -> ->. rewrite String.eqb_refl. reflexivity.
  - pose proof (ascending_head _ _ Hasc (k, v) Hin) as Hlt. cbn [fst] in Hlt.
    rewrite (ltb_neq _ _ Hlt). apply IH; [|exact Hin].
    cbn [ascending] in Hasc. apply andb_true_iff in Hasc. apply Hasc.
Qed.

(** ** The matcher on equal values *)

Lemma bytes_Contains_refl (b : bytes) : bytes_Contains b b = true.
Proof.
  apply bytes_Contains_spec. exists [], []. rewrite app_nil_r. reflexivity.
Qed.

Lemma sliceItems_refl (l : list Value) :
  Forall (fun v => itemContains v v = true) l -> sliceItems l l = true.
Proof.
  induction 1 as [|v l Hv _ IH]; [reflexivity|].
  cbn [sliceItems]. rewrite Hv. exact IH.
Qed.

Lemma itemContains_refl (v : Value) : wf v = true -> itemContains v v = true.
Proof.
  induction v as [|b|n|s|m IH|l IH|] using Value_ind'; intros Hwf;
    try reflexivity; try discriminate.
  - destruct b; reflexivity.
  - cbn [itemContains Marshal]. apply bytes_Equal_refl.
  - cbn [itemContains Marshal]. apply bytes_Equal_refl.
  - rewrite itemContains_object. apply mapContains_spec.
    cbn [wf] in Hwf. apply andb_true_iff in Hwf. destruct Hwf as [Hasc Hall].
    intros k v Hin. exists v. split; [apply ascending_lookup; assumption|].
    rewrite Forall_forall in IH. apply (IH (k, v) Hin).
    rewrite forallb_forall in Hall. apply (Hall (k, v) Hin).
  - rewrite itemContains_array. unfold sliceContains.
    destruct l as [|x l]; [reflexivity|].
    rewrite Nat.eqb_refl. cbn [negb]. apply sliceItems_refl.
    cbn [wf] in Hwf. rewrite forallb_forall in Hwf.
    rewrite Forall_forall in *. intros v Hin. apply IH; [exact Hin|].
    apply Hwf. exact Hin.
Qed.

Lemma bytes_Equal_sym (a b : bytes) : bytes_Equal a b = bytes_Equal b a.
Proof.
  destruct (bytes_Equal a b) eqn:E.
  - apply bytes_Equal_eq in E. subst. symmetry. apply bytes_Equal_refl.
  - destruct (bytes_Equal b a) eqn:E'; [|reflexivity].
    apply bytes_Equal_eq in E'. subst. rewrite bytes_Equal_refl in E. discriminate.
Qed.

(** X1. Under "exact" the matcher is an equivalence on the values the
    encoder accepts: a value matches itself exactly when it can be
    encoded, swapping expected and actual leaves the outcome as it is, and
    matches chain. *)
Theorem X1_exact_is_an_equivalence :
  (forall v, compareMessages MatchTypeExact v v = true <-> Marshal v <> None) /\
  (forall expected actual,
      compareMessages MatchTypeExact expected actual =
      compareMessages MatchTypeExact actual expected) /\
  (forall a b c,
      compareMessages MatchTypeExact a b = true ->
      compareMessages MatchTypeExact b c = true ->
      compareMessages MatchTypeExact a c = true).
Proof.
  split; [|split].
  - intros v. rewrite compareMessages_Exact. destruct (Marshal v) as [bs|].
    + rewrite bytes_Equal_refl. split; [discriminate | reflexivity].
    + split; [discriminate | congruence].
  - intros expected actual. rewrite !compareMessages_Exact.
    destruct (Marshal expected), (Marshal actual); try reflexivity.
    apply bytes_Equal_sym.
  - intros a b c. rewrite !compareMessages_Exact.
    destruct (Marshal a), (Marshal b), (Marshal c); try discriminate.
    rewrite !bytes_Equal_eq. congruence.
Qed.

Lemma X1_witness :
  let a := VObject [("role"%string, VString "user"); ("content"%string, VString "hi")] in
  let b := VObject [("content"%string, VString "hi"); ("role"%string, VString "user")] in
  compareMessages MatchTypeExact a b = true /\
  compareMessages MatchTypeExact b a = true /\
  compareMessages MatchTypeExact a a = true.
Proof.
  intros a b.
  assert (Hab : compareMessages MatchTypeExact a b = true) by reflexivity.
  assert (Hba : compareMessages MatchTypeExact b a = true) by reflexivity.
  split; [exact Hab | split; [exact Hba|]].
  exact (proj2 (proj2 X1_exact_is_an_equivalence) a b a Hab Hba).
Defined.

Lemma plainByte_escapeByte (c : ascii) : plainByte c = true -> escapeByte c = [c].
Proof. destruct c as [[] [] [] [] [] [] [] []]; intros H; try discriminate H; reflexivity. Qed.

Lemma plainText_escape (s : string) : plainText s = true -> escape s = bytesOf s.
Proof.
  unfold plainText. induction s as [|c s IH]; [reflexivity|].
  cbn [bytesOf list_ascii_of_string forallb escape]. intros H.
  apply andb_true_iff in H. destruct H as [Hc Hs].
  rewrite (plainByte_escapeByte c Hc), (IH Hs). reflexivity.
Qed.

(** X2. Under "contains" every well-formed value matches itself, a
    string provided it is plain text (printable ASCII without the quote,
    the backslash and the bytes <, > and &, which is what the encoder
    copies as it is); so an exact match of such values is a contains match
    as well. *)
Theorem X2_contains_matches_equal_values :
  (forall v,
      wf v = true ->
      (forall s, v = VString s -> plainText s = true) ->
      compareMessages MatchTypeContains v v = true) /\
  (forall expected actual,
      wf expected = true -> wf actual = true ->
      (forall s, expected = VString s -> plainText s = true) ->
      compareMessages MatchTypeExact expected actual = true ->
      compareMessages MatchTypeContains expected actual = true).
Proof.
  assert (Hrefl : forall v, wf v = true ->
            (forall s, v = VString s -> plainText s = true) ->
            compareMessages MatchTypeContains v v = true).
  { intros v Hwf Hs. destruct (wf_Marshal v Hwf) as [bs E].
    rewrite (compareMessages_Contains v v bs bs Hwf Hwf E E).
    destruct v as [|b|n|s|m|l|]; try apply bytes_Contains_refl.
    - cbn [Marshal] in E. injection E as <-. apply bytes_Contains_spec.
      exists [quote], [quote]. unfold encodeString.
      rewrite (plainText_escape s (Hs s eq_refl)). reflexivity.
    - rewrite <- itemContains_object. apply itemContains_refl. exact Hwf.
    - rewrite <- itemContains_array. apply itemContains_refl. exact Hwf. }
  split; [exact Hrefl|].
  intros expected actual He Ha Hs Hexact.
  rewrite compareMessages_Exact in Hexact.
  destruct (wf_Marshal expected He) as [je Ee].
  destruct (wf_Marshal actual Ha) as [ja Ea].
  rewrite Ee, Ea in Hexact. apply bytes_Equal_eq in Hexact. subst ja.
  rewrite <- (Marshal_inj expected actual je He Ha Ee Ea).
  apply Hrefl; assumption.
Qed.

Lemma X2_witness :
  let v := VString "hello there" in
  let w := VObject [("content"%string, VArray [VString "a<b"; VNull]);
                    ("role"%string, VString "user")] in
  wf v = true /\ compareMessages MatchTypeContains v v = true /\
  wf w = true /\ compareMessages MatchTypeContains w w = true.
Proof.
  intros v w. split; [reflexivity|]. split; [|split; [reflexivity|]].
  - apply (proj1 X2_contains_matches_equal_values v eq_refl).
    intros s E. injection E as <-. reflexivity.
  - apply (proj1 X2_contains_matches_equal_values w eq_refl).
    intros s E. discriminate E.
Defined.

(** ** Bytes the encoder never writes *)

Lemma written_app (a b : bytes) : written (a ++ b) = written a && written b.
Proof. apply forallb_app. Qed.

Lemma written_escapeByte (c : ascii) : written (escapeByte c) = true.
Proof. destruct c as [[] [] [] [] [] [] [] []]; reflexivity. Qed.

Lemma written_escape (s : string) : written (escape s) = true.
Proof.
  induction s as [|c s IH]; [reflexivity|].
  cbn [escape]. rewrite written_app, written_escapeByte, IH. reflexivity.
Qed.

Lemma written_encodeString (s : string) : written (encodeString s) = true.
Proof.
  unfold encodeString. change (quote :: escape s ++ [quote])
    with ([quote] ++ escape s ++ [quote]).
  rewrite !written_app, written_escape. reflexivity.
Qed.

Lemma written_uintBytes (u : Decimal.uint) : written (uintBytes u) = true.
Proof. induction u; simpl; try reflexivity; exact IHu. Qed.

Lemma written_encodeNumber (n : Number) : written (encodeNumber n) = true.
Proof.
  destruct n as [z|]; [|reflexivity].
  unfold encodeNumber, encodeInteger. destruct (Z.to_int z); simpl;
    apply written_uintBytes.
Qed.

Lemma written_join (parts : list bytes) :
  Forall (fun p => written p = true) parts -> written (join [","%char] parts) = true.
Proof.
  induction 1 as [|p parts Hp _ IH]; [reflexivity|].
  destruct parts as [|p2 parts]; [exact Hp|].
  change (join [","%char] (p :: p2 :: parts))
    with (p ++ [","%char] ++ join [","%char] (p2 :: parts)).
  rewrite !written_app, Hp, IH. reflexivity.
Qed.

Lemma insertByKey_Forall {A} (P : string * A -> Prop) (x : string * A)
    (l : list (string * A)) :
  P x -> Forall P l -> Forall P (insertByKey x l).
Proof.
  intros Hx Hl. induction Hl as [|y l Hy Hl IH]; cbn [insertByKey].
  - constructor; [exact Hx | constructor].
  - destruct (String.leb (fst x) (fst y)); repeat constructor; assumption.
Qed.

Lemma sortByKey_Forall {A} (P : string * A -> Prop) (l : list (string * A)) :
  Forall P l -> Forall P (sortByKey l).
Proof.
  induction 1 as [|x l Hx _ IH]; [constructor|].
  cbn [sortByKey]. apply insertByKey_Forall; assumption.
Qed.

(** No encoding holds a control byte or one of the bytes <, > and &. *)
Lemma written_Marshal (v : Value) (bs : bytes) :
  Marshal v = Some bs -> written bs = true.
Proof.
  revert bs. induction v as [|b|n|s|m IH|l IH|] using Value_ind'; intros bs E.
  - injection E as <-. reflexivity.
  - destruct b; injection E as <-; reflexivity.
  - injection E as <-. apply written_encodeNumber.
  - injection E as <-. apply written_encodeString.
  - rewrite Marshal_object in E.
    destruct (marshalMembers m) as [fields|] eqn:Em; [|discriminate].
    injection E as <-.
    assert (Hf : Forall (fun kv => written (snd kv) = true) fields).
    { revert fields Em. induction IH as [|[k v] m Hv _ IHm]; intros fields Em.
      - injection Em as <-. constructor.
      - rewrite marshalMembers_cons in Em.
        destruct (Marshal v) as [bv|] eqn:Ev; [|discriminate].
        destruct (marshalMembers m) as [fs|]; [|discriminate].
        injection Em as <-. constructor; [apply (Hv bv Ev) | apply IHm; reflexivity]. }
    change ("{"%char :: join [","%char] (map encodeMember (sortByKey fields)) ++ ["}"%char])
      with (["{"%char] ++ join [","%char] (map encodeMember (sortByKey fields))
              ++ ["}"%char]).
    rewrite !written_app, written_join; [reflexivity|].
    apply Forall_map. apply sortByKey_Forall.
    eapply Forall_impl; [|exact Hf]. intros [k b] Hb. unfold encodeMember.
    cbn [fst snd] in *.
    change (encodeString k ++ ":"%char :: b) with (encodeString k ++ [":"%char] ++ b).
    rewrite !written_app, written_encodeString, Hb. reflexivity.
  - rewrite Marshal_array in E.
    destruct (sequence (map Marshal l)) as [items|] eqn:El; [|discriminate].
    injection E as <-.
    assert (Hi : Forall (fun p => written p = true) items).
    { revert items El. induction IH as [|v l Hv _ IHl]; intros items El.
      - injection El as <-. constructor.
      - cbn [map sequence] in El.
        destruct (Marshal v) as [bv|] eqn:Ev; [|discriminate].
        destruct (sequence (map Marshal l)) as [bl|]; [|discriminate].
        injection El as <-. constructor; [apply (Hv bv eq_refl) | apply IHl; reflexivity]. }
    change ("["%char :: join [","%char] items ++ ["]"%char])
      with (["["%char] ++ join [","%char] items ++ ["]"%char]).
    rewrite !written_app, written_join; [reflexivity | exact Hi].
  - discriminate.
Qed.

(** X3. Under "contains" an expected string that holds a control byte or
    one of the bytes <, > and & matches no actual value at all: the
    encoder escapes these bytes, so none of them occurs in the encoded
    actual value. *)
Theorem X3_contains_string_with_escaped_byte_never_matches :
  forall (s : string) (c : ascii) (actual : Value),
    In c (bytesOf s) -> neverWritten c = true ->
    compareMessages MatchTypeContains (VString s) actual = false.
Proof.
  intros s c actual Hin Hc. unfold compareMessages. cbn [Marshal].
  destruct (Marshal actual) as [jsonActual|] eqn:Ea; [|reflexivity].
  change (String.eqb MatchTypeContains MatchTypeExact) with false.
  change (String.eqb MatchTypeContains MatchTypeContains) with true. cbv iota.
  rewrite (Unmarshal_Marshal (VString s) (encodeString s) eq_refl eq_refl).
  destruct (Unmarshal jsonActual); [|reflexivity].
  destruct (bytes_Contains jsonActual (bytesOf s)) eqn:Hcont; [|reflexivity].
  apply bytes_Contains_spec in Hcont. destruct Hcont as [pre [post E]].
  pose proof (written_Marshal actual jsonActual Ea) as Hw.
  unfold written in Hw. rewrite forallb_forall in Hw.
  assert (Hc' : In c jsonActual).
  { rewrite E. apply in_or_app. right. apply in_or_app. left. exact Hin. }
  apply Hw in Hc'. rewrite Hc in Hc'. discriminate.
Qed.

Lemma X3_witness :
  compareMessages MatchTypeContains (VString "a<b") (VString "a<b") = false.
Proof.
  apply (X3_contains_string_with_escaped_byte_never_matches "a<b" "<"%char).
  - right. left. reflexivity.
  - reflexivity.
Defined.

(** X4. Under "contains" an expected number or boolean is searched as
    text: the match succeeds exactly when its encoding occurs in the
    encoded actual value, whatever the variant of that value. *)
Theorem X4_contains_number_or_boolean_by_text :
  forall (expected actual : Value) (jsonExpected : bytes),
    match expected with VNumber _ | VBool _ => True | _ => False end ->
    Marshal expected = Some jsonExpected ->
    wf actual = true ->
    (compareMessages MatchTypeContains expected actual = true <->
     exists jsonActual pre post,
       Marshal actual = Some jsonActual /\ jsonActual = pre ++ jsonExpected ++ post).
Proof.
  intros expected actual jsonExpected Hkind Ee Ha.
  destruct (wf_Marshal actual Ha) as [jsonActual Ea].
  assert (He : wf expected = true) by (destruct expected; try contradiction; reflexivity).
  rewrite (compareMessages_Contains expected actual jsonExpected jsonActual He Ha Ee Ea).
  assert (E : match expected with
              | VString sv => bytes_Contains jsonActual (bytesOf sv)
              | VObject expectedVal =>
                  match actual with
                  | VObject actualMap => mapContains actualMap expectedVal
                  | _ => false
                  end
              | VArray expectedVal =>
                  match actual with
                  | VArray actualSlice => sliceContains actualSlice expectedVal
                  | _ => false
                  end
              | _ => bytes_Contains jsonActual jsonExpected
              end = bytes_Contains jsonActual jsonExpected)
    by (destruct expected; try contradiction; reflexivity).
  rewrite E, bytes_Contains_spec. split.
  - intros [pre [post H]]. exists jsonActual, pre, post. auto.
  - intros [ja [pre [post [E' H]]]]. exists pre, post. congruence.
Qed.

Lemma X4_witness :
  let actual := VObject [("n"%string, VNumber 213)] in
  wf actual = true /\
  exists jsonActual pre post,
    Marshal actual = Some jsonActual /\ jsonActual = pre ++ bytesOf "1" ++ post.
Proof.
  intros actual. split; [reflexivity|].
  apply (proj1 (X4_contains_number_or_boolean_by_text (VNumber 1) actual (bytesOf "1")
                  I eq_refl eq_refl)).
  reflexivity.
Defined.

(** X5. Under "contains" fields added to the actual object never break a
    match: an expected object that matches an actual object matches every
    object that has the same values under the same keys and more
    besides. *)
Theorem X5_contains_ignores_added_fields :
  forall expected actual extended : list (string * Value),
    wf (VObject expected) = true -> wf (VObject actual) = true ->
    wf (VObject extended) = true ->
    (forall key value, lookup key actual = Some value -> lookup key extended = Some value) ->
    compareMessages MatchTypeContains (VObject expected) (VObject actual) = true ->
    compareMessages MatchTypeContains (VObject expected) (VObject extended) = true.
Proof.
  intros expected actual extended He Ha Hx Hext.
  destruct (wf_Marshal _ He) as [je Ee]. destruct (wf_Marshal _ Ha) as [ja Ea].
  destruct (wf_Marshal _ Hx) as [jx Ex].
  rewrite (compareMessages_Contains _ _ je ja He Ha Ee Ea).
  rewrite (compareMessages_Contains _ _ je jx He Hx Ee Ex).
  rewrite !mapContains_spec. intros H key valB Hin.
  destruct (H key valB Hin) as [valA [Hl Hc]]. exists valA. split; [|exact Hc].
  apply Hext. exact Hl.
Qed.

Lemma X5_witness :
  let expected := [("role"%string, VString "user")] in
  let actual := [("role"%string, VString "user")] in
  let extended := [("id"%string, VNumber 7); ("role"%string, VString "user")] in
  compareMessages MatchTypeContains (VObject expected) (VObject extended) = true.
Proof.
  intros expected actual extended.
  apply (X5_contains_ignores_added_fields expected actual extended
           eq_refl eq_refl eq_refl).
  - intros key value. cbn [lookup actual extended].
    destruct (String.eqb key "role") eqn:E; [|discriminate].
    apply String.eqb_eq in E. subst key. intros H. exact H.
  - reflexivity.
Defined.

(** ** Dispatch and the conversation *)

Lemma scan_ext {M} (f g : M -> bool) (ms : list M) :
  (forall m, f m = g m) -> scan f ms = scan g ms.
Proof.
  intros E. induction ms as [|m ms IH]; [reflexivity|].
  cbn [scan]. rewrite E, IH. reflexivity.
Qed.

Lemma scan_app {M} (f : M -> bool) (ms1 ms2 : list M) :
  scan f (ms1 ++ ms2) =
  match scan f ms1 with
  | Some mock => Some mock
  | None => scan f ms2
  end.
Proof.
  induction ms1 as [|m ms1 IH]; [reflexivity|].
  cbn [app scan]. destruct (f m); [reflexivity | exact IH].
Qed.

Lemma OpenAI_requestsMatch_last p expected earlier lastMessage :
  OpenAI.requestsMatch p expected {| OpenAI.Messages := earlier ++ [lastMessage] |} =
  compareMessages (OpenAI.MatchType expected) (OpenAI.Message expected) lastMessage.
Proof.
  unfold OpenAI.requestsMatch. cbn [OpenAI.Messages].
  rewrite (last_message_nonempty _ _ (last_message_app earlier lastMessage)).
  rewrite last_message_app. reflexivity.
Qed.

Lemma Anthropic_requestsMatch_last p expected earlier lastMessage :
  Anthropic.requestsMatch p expected
    {| Anthropic.Messages := earlier ++ [lastMessage] |} =
  compareMessages (Anthropic.MatchType expected) (Anthropic.Message expected) lastMessage.
Proof.
  unfold Anthropic.requestsMatch. cbn [Anthropic.Messages].
  rewrite (last_message_nonempty _ _ (last_message_app earlier lastMessage)).
  rewrite last_message_app. reflexivity.
Qed.

Lemma Google_requestsMatch_last p expected earlier lastMessage :
  Google.requestsMatch p expected {| Google.Contents := earlier ++ [lastMessage] |} =
  compareMessages (Google.MatchType expected)
    (genai.ContentJSON (Google.Content expected)) (genai.ContentJSON lastMessage).
Proof.
  unfold Google.requestsMatch. cbn [Google.Contents].
  rewrite (last_message_nonempty _ _ (last_message_app earlier lastMessage)).
  rewrite last_message_app. reflexivity.
Qed.

Lemma GoogleText_requestsMatch_last p expected earlier earlier' lastMessage :
  GoogleText.requestsMatch p expected
    {| GoogleText.Contents := earlier ++ [lastMessage] |} =
  GoogleText.requestsMatch p expected
    {| GoogleText.Contents := earlier' ++ [lastMessage] |}.
Proof.
  unfold GoogleText.requestsMatch. cbn [GoogleText.Contents].
  rewrite !(last_message_nonempty _ _ (last_message_app _ lastMessage)).
  rewrite !last_message_app. reflexivity.
Qed.

(** X6. Dispatch looks at the last message only: two conversations that
    end with the same message are answered with the same entry, whatever
    messages come before it, by every provider. *)
Theorem X6_dispatch_depends_on_last_message_only :
  (forall p earlier earlier' lastMessage,
      OpenAI.findMatchingMock p {| OpenAI.Messages := earlier ++ [lastMessage] |} =
      OpenAI.findMatchingMock p {| OpenAI.Messages := earlier' ++ [lastMessage] |}) /\
  (forall p earlier earlier' lastMessage,
      Anthropic.findMatchingMock p {| Anthropic.Messages := earlier ++ [lastMessage] |} =
      Anthropic.findMatchingMock p {| Anthropic.Messages := earlier' ++ [lastMessage] |}) /\
  (forall p earlier earlier' lastMessage,
      Google.findMatchingMock p {| Google.Contents := earlier ++ [lastMessage] |} =
      Google.findMatchingMock p {| Google.Contents := earlier' ++ [lastMessage] |}) /\
  (forall p earlier earlier' lastMessage,
      GoogleText.findMatchingMock p {| GoogleText.Contents := earlier ++ [lastMessage] |} =
      GoogleText.findMatchingMock p {| GoogleText.Contents := earlier' ++ [lastMessage] |}).
Proof.
  split; [|split; [|split]]; intros [ms] earlier earlier' lastMessage.
  - rewrite !(OpenAI_find {| OpenAI.mocks := [] |}).
    apply scan_ext. intros m. rewrite !OpenAI_requestsMatch_last. reflexivity.
  - rewrite !(Anthropic_find {| Anthropic.mocks := [] |}).
    apply scan_ext. intros m. rewrite !Anthropic_requestsMatch_last. reflexivity.
  - rewrite !(Google_find {| Google.mocks := [] |}).
    apply scan_ext. intros m. rewrite !Google_requestsMatch_last. reflexivity.
  - rewrite !(GoogleText_find {| GoogleText.mocks := [] |}).
    apply scan_ext. intros m. apply GoogleText_requestsMatch_last.
Qed.

(** X7. A registry made of two lists is searched list by list: the
    answer is the first list's when it has a match, and the second list's
    otherwise. *)
Theorem X7_dispatch_over_joined_registries :
  (forall ms1 ms2 request,
      OpenAI.findMatchingMock {| OpenAI.mocks := ms1 ++ ms2 |} request =
      match OpenAI.findMatchingMock {| OpenAI.mocks := ms1 |} request with
      | Some mock => Some mock
      | None => OpenAI.findMatchingMock {| OpenAI.mocks := ms2 |} request
      end) /\
  (forall ms1 ms2 request,
      Anthropic.findMatchingMock {| Anthropic.mocks := ms1 ++ ms2 |} request =
      match Anthropic.findMatchingMock {| Anthropic.mocks := ms1 |} request with
      | Some mock => Some mock
      | None => Anthropic.findMatchingMock {| Anthropic.mocks := ms2 |} request
      end) /\
  (forall ms1 ms2 request,
      Google.findMatchingMock {| Google.mocks := ms1 ++ ms2 |} request =
      match Google.findMatchingMock {| Google.mocks := ms1 |} request with
      | Some mock => Some mock
      | None => Google.findMatchingMock {| Google.mocks := ms2 |} request
      end) /\
  (forall ms1 ms2 request,
      GoogleText.findMatchingMock {| GoogleText.mocks := ms1 ++ ms2 |} request =
      match GoogleText.findMatchingMock {| GoogleText.mocks := ms1 |} request with
      | Some mock => Some mock
      | None => GoogleText.findMatchingMock {| GoogleText.mocks := ms2 |} request
      end).
Proof.
  split; [|split; [|split]]; intros ms1 ms2 request.
  - set (q := {| OpenAI.mocks := [] |}). rewrite !(OpenAI_find q). apply scan_app.
  - set (q := {| Anthropic.mocks := [] |}). rewrite !(Anthropic_find q). apply scan_app.
  - set (q := {| Google.mocks := [] |}). rewrite !(Google_find q). apply scan_app.
  - set (q := {| GoogleText.mocks := [] |}). rewrite !(GoogleText_find q).
    apply scan_app.
Qed.

Lemma scan_shadowed {M} (f : M -> bool) (before mid after : list M) (first later : M) :
  f later = f first ->
  scan f (before ++ first :: mid ++ later :: after) =
  scan f (before ++ first :: mid ++ after).
Proof.
  intros E. rewrite !scan_app. destruct (scan f before); [reflexivity|].
  cbn [scan]. destruct (f first) eqn:Hf; [reflexivity|].
  rewrite !scan_app. destruct (scan f mid); [reflexivity|].
  cbn [scan]. rewrite E. reflexivity.
Qed.

(** X8. An entry whose match specification repeats that of an earlier
    entry is dead: taking it out of the registry changes the answer to no
    request. *)
Theorem X8_repeated_match_is_never_returned :
  (forall before mid after first later request,
      OpenAI.Match later = OpenAI.Match first ->
      OpenAI.findMatchingMock
        {| OpenAI.mocks := before ++ first :: mid ++ later :: after |} request =
      OpenAI.findMatchingMock
        {| OpenAI.mocks := before ++ first :: mid ++ after |} request) /\
  (forall before mid after first later request,
      Anthropic.Match later = Anthropic.Match first ->
      Anthropic.findMatchingMock
        {| Anthropic.mocks := before ++ first :: mid ++ later :: after |} request =
      Anthropic.findMatchingMock
        {| Anthropic.mocks := before ++ first :: mid ++ after |} request) /\
  (forall before mid after first later request,
      Google.Match later = Google.Match first ->
      Google.findMatchingMock
        {| Google.mocks := before ++ first :: mid ++ later :: after |} request =
      Google.findMatchingMock
        {| Google.mocks := before ++ first :: mid ++ after |} request) /\
  (forall before mid after first later request,
      GoogleText.Match later = GoogleText.Match first ->
      GoogleText.findMatchingMock
        {| GoogleText.mocks := before ++ first :: mid ++ later :: after |} request =
      GoogleText.findMatchingMock
        {| GoogleText.mocks := before ++ first :: mid ++ after |} request).
Proof.
  split; [|split; [|split]]; intros before mid after first later request E.
  - set (q := {| OpenAI.mocks := [] |}). rewrite !(OpenAI_find q).
    apply scan_shadowed. rewrite E. reflexivity.
  - set (q := {| Anthropic.mocks := [] |}). rewrite !(Anthropic_find q).
    apply scan_shadowed. rewrite E. reflexivity.
  - set (q := {| Google.mocks := [] |}). rewrite !(Google_find q).
    apply scan_shadowed. rewrite E. reflexivity.
  - set (q := {| GoogleText.mocks := [] |}). rewrite !(GoogleText_find q).
    apply scan_shadowed. rewrite E. reflexivity.
Qed.

Lemma X8_witness :
  let spec := {| OpenAI.MatchType := MatchTypeContains; OpenAI.Message := VString "foo" |} in
  let first := {| OpenAI.Name := "first"; OpenAI.Match := spec;
                  OpenAI.Response := VString "one" |} in
  let later := {| OpenAI.Name := "later"; OpenAI.Match := spec;
                  OpenAI.Response := VString "two" |} in
  let request := {| OpenAI.Messages := [VString "foo"] |} in
  OpenAI.findMatchingMock {| OpenAI.mocks := [first; later] |} request =
  OpenAI.findMatchingMock {| OpenAI.mocks := [first] |} request.
Proof.
  intros spec first later request.
  exact (proj1 X8_repeated_match_is_never_returned [] [] [] first later request eq_refl).
Defined.

(** ** The server and its handlers *)

Lemma fold_left_append {A B} (g : A -> B) (l : list A) (acc : list B) :
  fold_left (fun acc x => acc ++ [g x]) l acc = acc ++ map g l.
Proof.
  revert acc. induction l as [|x l IH]; intros acc; cbn [fold_left map].
  - rewrite app_nil_r. reflexivity.
  - rewrite IH, <- app_assoc. reflexivity.
Qed.

Lemma map_same {A} (g : A -> A) (l : list A) : (forall x, g x = x) -> map g l = l.
Proof.
  intros E. induction l as [|x l IH]; [reflexivity|].
  cbn [map]. rewrite E, IH. reflexivity.
Qed.

(** X9. [NewServer] hands every provider the mocks of the configuration
    as they are and in the configuration's order, so the order of the
    configuration is the order dispatch goes by. *)
Theorem X9_NewServer_keeps_mocks_in_order :
  forall c : Config,
    config (NewServer c) = c /\
    OpenAI.mocks (openaiProvider (NewServer c)) = Config_OpenAI c /\
    Anthropic.mocks (anthropicProvider (NewServer c)) = Config_Anthropic c /\
    Google.mocks (googleProvider (NewServer c)) = Config_Google c.
Proof.
  intros c. unfold NewServer. cbn [config openaiProvider anthropicProvider googleProvider
    OpenAI.mocks Anthropic.mocks Google.mocks].
  rewrite !fold_left_append. cbn [app].
  repeat split; apply map_same; intros []; reflexivity.
Qed.

Section HandlerProperties.

Variable errorText : Value -> string.

(** What the client gets from [handleNonStreamingResponse] on a writer
    nothing was sent on yet. *)
Lemma handleNonStreamingResponse_fresh (w : http.ResponseWriter) (response : Value) :
  http.sent w = None ->
  let w' := handleNonStreamingResponse errorText w response in
  http.status w' = Some http.StatusOK /\
  http.Get "Content-Type" (http.sentHeader w') = "application/json"%string /\
  http.body w' =
  http.body w ++
  match Marshal response with
  | Some data => data ++ [http.newline]
  | None =>
      bytesOf ("Failed to encode response: " ++ errorText response)%string
        ++ [http.newline]
  end.
Proof.
  intros Hs. destruct w as [h s b]. cbn [http.sent] in Hs. subst s.
  unfold handleNonStreamingResponse, Encode.
  destruct (Marshal response) as [data|]; repeat split.
Qed.

(** X10. [handleNonStreamingResponse] on a fresh writer always answers
    with status 200 and content type application/json: the status is sent
    before the response is encoded, so when the encoder rejects the
    response the status 500 the handler asks for comes too late, and the
    client gets the error text under status 200.  When the encoder accepts
    the response the body is its encoding and a newline. *)
Theorem X10_response_status_is_sent_before_encoding :
  forall (w : http.ResponseWriter) (response : Value),
    http.sent w = None ->
    let w' := handleNonStreamingResponse errorText w response in
    http.status w' = Some http.StatusOK /\
    http.Get "Content-Type" (http.sentHeader w') = "application/json"%string /\
    http.body w' =
    http.body w ++
    match Marshal response with
    | Some data => data ++ [http.newline]
    | None =>
        bytesOf ("Failed to encode response: " ++ errorText response)%string
          ++ [http.newline]
    end.
Proof.
  intros w response Hs. destruct w as [h s b]. cbn [http.sent] in Hs. subst s.
  unfold handleNonStreamingResponse, Encode.
  destruct (Marshal response) as [data|]; repeat split.
Qed.

(** X11. The status [Handle] answers with on a fresh writer, for the
    OpenAI and Anthropic providers and the Google provider that calls
    [compareMessages]: 400 when the body does not decode, 404 when it
    decodes and no entry matches, 200 when an entry matches, and never
    500.  The Anthropic handler checks its two headers before anything
    else: 401 without an API key, 400 without a version, whatever the body
    and the registry. *)
Theorem X11_handler_status :
  (forall p r,
      http.status (OpenAIProvider_Handle errorText p http.NewRecorder r) =
      Some match http.Decode r with
           | http.DecodeError _ => http.StatusBadRequest
           | http.DecodeOK requestBody =>
               match OpenAI.findMatchingMock p requestBody with
               | None => http.StatusNotFound
               | Some _ => http.StatusOK
               end
           end) /\
  (forall p r,
      http.status (AnthropicProvider_Handle errorText p http.NewRecorder r) =
      Some (if String.eqb (http.Get "X-Api-Key" (http.ReqHeader r)) EmptyString
            then http.StatusUnauthorized
            else if String.eqb (http.Get "Anthropic-Version" (http.ReqHeader r))
                      EmptyString
            then http.StatusBadRequest
            else match http.Decode r with
                 | http.DecodeError _ => http.StatusBadRequest
                 | http.DecodeOK requestBody =>
                     match Anthropic.findMatchingMock p requestBody with
                     | None => http.StatusNotFound
                     | Some _ => http.StatusOK
                     end
                 end)) /\
  (forall p r,
      http.status (GoogleProvider_Handle errorText p http.NewRecorder r) =
      Some match http.Decode r with
           | http.DecodeError _ => http.StatusBadRequest
           | http.DecodeOK requestBody =>
               match Google.findMatchingMock p requestBody with
               | None => http.StatusNotFound
               | Some _ => http.StatusOK
               end
           end).
Proof.
  split; [|split]; intros p r.
  - unfold OpenAIProvider_Handle. destruct (http.Decode r) as [err|requestBody];
      [reflexivity|].
    destruct (OpenAI.findMatchingMock p requestBody) as [mock|]; [|reflexivity].
    apply (handleNonStreamingResponse_fresh http.NewRecorder _ eq_refl).
  - unfold AnthropicProvider_Handle.
    destruct (String.eqb (http.Get "X-Api-Key" (http.ReqHeader r)) EmptyString);
      [reflexivity|].
    destruct (String.eqb (http.Get "Anthropic-Version" (http.ReqHeader r)) EmptyString);
      [reflexivity|].
    destruct (http.Decode r) as [err|requestBody]; [reflexivity|].
    destruct (Anthropic.findMatchingMock p requestBody) as [mock|]; [|reflexivity].
    apply (handleNonStreamingResponse_fresh http.NewRecorder _ eq_refl).
  - unfold GoogleProvider_Handle. destruct (http.Decode r) as [err|requestBody];
      [reflexivity|].
    destruct (Google.findMatchingMock p requestBody) as [mock|]; [|reflexivity].
    apply (handleNonStreamingResponse_fresh http.NewRecorder _ eq_refl).
Qed.

(** X12. When the body decodes and an entry matches, the client gets the
    canned response of the first matching entry back: the body is one line
    of JSON that decodes to that response, under content type
    application/json. *)
Theorem X12_handler_returns_the_canned_response :
  (forall p r requestBody mock,
      http.Decode r = http.DecodeOK requestBody ->
      OpenAI.findMatchingMock p requestBody = Some mock ->
      wf (OpenAI.Response mock) = true ->
      let w' := OpenAIProvider_Handle errorText p http.NewRecorder r in
      http.Get "Content-Type" (http.sentHeader w') = "application/json"%string /\
      exists data, http.body w' = data ++ [http.newline] /\
                   Unmarshal data = Some (OpenAI.Response mock)) /\
  (forall p r requestBody mock,
      http.Get "X-Api-Key" (http.ReqHeader r) <> EmptyString ->
      http.Get "Anthropic-Version" (http.ReqHeader r) <> EmptyString ->
      http.Decode r = http.DecodeOK requestBody ->
      Anthropic.findMatchingMock p requestBody = Some mock ->
      wf (Anthropic.Response mock) = true ->
      let w' := AnthropicProvider_Handle errorText p http.NewRecorder r in
      http.Get "Content-Type" (http.sentHeader w') = "application/json"%string /\
      exists data, http.body w' = data ++ [http.newline] /\
                   Unmarshal data = Some (Anthropic.Response mock)) /\
  (forall p r requestBody mock,
      http.Decode r = http.DecodeOK requestBody ->
      Google.findMatchingMock p requestBody = Some mock ->
      wf (Google.Response mock) = true ->
      let w' := GoogleProvider_Handle errorText p http.NewRecorder r in
      http.Get "Content-Type" (http.sentHeader w') = "application/json"%string /\
      exists data, http.body w' = data ++ [http.newline] /\
                   Unmarshal data = Some (Google.Response mock)).
Proof.
  assert (H : forall response, wf response = true ->
            let w' := handleNonStreamingResponse errorText http.NewRecorder response in
            http.Get "Content-Type" (http.sentHeader w') = "application/json"%string /\
            exists data, http.body w' = data ++ [http.newline] /\
                         Unmarshal data = Some response).
  { intros response Hwf w'.
    destruct (handleNonStreamingResponse_fresh http.NewRecorder response eq_refl)
      as [_ [Hct Hbody]].
    split; [exact Hct|]. destruct (wf_Marshal response Hwf) as [data E].
    exists data. fold w' in Hbody. rewrite Hbody, E.
    split; [reflexivity | apply Unmarshal_Marshal; assumption]. }
  split; [|split].
  - intros p r requestBody mock Hd Hf Hwf. unfold OpenAIProvider_Handle.
    rewrite Hd, Hf. apply H. exact Hwf.
  - intros p r requestBody mock Hk Hv Hd Hf Hwf. unfold AnthropicProvider_Handle.
    apply String.eqb_neq in Hk. apply String.eqb_neq in Hv.
    rewrite Hk, Hv, Hd, Hf. apply H. exact Hwf.
  - intros p r requestBody mock Hd Hf Hwf. unfold GoogleProvider_Handle.
    rewrite Hd, Hf. apply H. exact Hwf.
Qed.

(** X13. The health check answers 200 with one line of JSON that decodes
    to the number of mocks the configuration holds for each provider,
    beside the fixed status and service name. *)
Theorem X13_health_reports_the_configured_mocks :
  forall s : Server,
    let w' := handleHealth errorText s http.NewRecorder in
    http.status w' = Some http.StatusOK /\
    exists data,
      http.body w' = data ++ [http.newline] /\
      Unmarshal data =
      Some (VObject [("anthropic"%string, lenValue (Config_Anthropic (config s)));
                     ("google"%string, lenValue (Config_Google (config s)));
                     ("openai"%string, lenValue (Config_OpenAI (config s)));
                     ("service"%string, VString "mock-llm");
                     ("status"%string, VString "healthy")]).
Proof.
  intros s w'.
  set (sorted := [("anthropic"%string, lenValue (Config_Anthropic (config s)));
                  ("google"%string, lenValue (Config_Google (config s)));
                  ("openai"%string, lenValue (Config_OpenAI (config s)));
                  ("service"%string, VString "mock-llm");
                  ("status"%string, VString "healthy")]).
  assert (Hwf : wf (VObject sorted) = true) by reflexivity.
  destruct (wf_Marshal _ Hwf) as [data E].
  assert (Eb : Marshal (healthBody s) = Some data).
  { unfold healthBody. rewrite <- Marshal_sortByKey. exact E. }
  subst w'. unfold handleHealth, Encode. rewrite Eb. split; [reflexivity|].
  exists data. split; [reflexivity | apply Unmarshal_Marshal; assumption].
Qed.

(** X14. A request no route matches is answered 404 with one line of
    JSON that decodes to an object naming the request's path and method,
    beside the fixed error text and hint, when path and method are ASCII
    text. *)
Theorem X14_not_found_echoes_path_and_method :
  forall (T : Type) (s : Server) (r : http.Request T),
    asciiText (http.Path r) = true -> asciiText (http.Method r) = true ->
    let w' := handleNotFound errorText s http.NewRecorder r in
    http.status w' = Some http.StatusNotFound /\
    exists data,
      http.body w' = data ++ [http.newline] /\
      Unmarshal data =
      Some (VObject [("error"%string, VString "Endpoint not found");
                     ("hint"%string, VString supportedHint);
                     ("method"%string, VString (http.Method r));
                     ("path"%string, VString (http.Path r))]).
Proof.
  intros T s r _ _ w'.
  set (sorted := [("error"%string, VString "Endpoint not found");
                  ("hint"%string, VString supportedHint);
                  ("method"%string, VString (http.Method r));
                  ("path"%string, VString (http.Path r))]).
  assert (Hwf : wf (VObject sorted) = true) by reflexivity.
  destruct (wf_Marshal _ Hwf) as [data E].
  assert (Eb : Marshal (notFoundBody r) = Some data).
  { unfold notFoundBody. rewrite <- Marshal_sortByKey. exact E. }
  subst w'. unfold handleNotFound, Encode. rewrite Eb. split; [reflexivity|].
  exists data. split; [reflexivity | apply Unmarshal_Marshal; assumption].
Qed.

End HandlerProperties.

Lemma X10_witness :
  let w' := handleNonStreamingResponse (fun _ => "json: unsupported value"%string)
              http.NewRecorder (VArray [VUnsupported]) in
  http.status w' = Some http.StatusOK /\
  http.body w' =
  bytesOf "Failed to encode response: json: unsupported value" ++ [http.newline].
Proof.
  intros w'.
  destruct (X10_response_status_is_sent_before_encoding
              (fun _ => "json: unsupported value"%string)
              http.NewRecorder (VArray [VUnsupported]) eq_refl) as [Hs [_ Hb]].
  split; [exact Hs | exact Hb].
Defined.

Lemma X12_witness :
  let mock := {| OpenAI.Name := "greeting";
                 OpenAI.Match := {| OpenAI.MatchType := MatchTypeContains;
                                    OpenAI.Message := VString "hello" |};
                 OpenAI.Response := VObject [("id"%string, VString "chatcmpl-1")] |} in
  let p := {| OpenAI.mocks := [mock] |} in
  let requestBody := {| OpenAI.Messages := [VString "hello there"] |} in
  let r := {| http.Method := "POST"; http.Path := "/v1/chat/completions";
              http.ReqHeader := []; http.Decode := http.DecodeOK requestBody |} in
  let w' := OpenAIProvider_Handle (fun _ => EmptyString) p http.NewRecorder r in
  OpenAI.findMatchingMock p requestBody = Some mock /\
  exists data, http.body w' = data ++ [http.newline] /\
               Unmarshal data = Some (OpenAI.Response mock).
Proof.
  intros mock p requestBody r w'. split; [reflexivity|].
  exact (proj2 (proj1 (X12_handler_returns_the_canned_response (fun _ => EmptyString))
                  p r requestBody mock eq_refl eq_refl eq_refl)).
Defined.

Lemma X14_witness :
  let s := NewServer {| Config_OpenAI := []; Config_Anthropic := []; Config_Google := [];
                        ListenAddr := EmptyString |} in
  let r := {| http.Method := "GET"; http.Path := "/v1/models"; http.ReqHeader := [];
              http.Decode := http.DecodeError (T := unit) EmptyString |} in
  let w' := handleNotFound (fun _ => EmptyString) s http.NewRecorder r in
  http.status w' = Some http.StatusNotFound /\
  exists data,
    http.body w' = data ++ [http.newline] /\
    Unmarshal data =
    Some (VObject [("error"%string, VString "Endpoint not found");
                   ("hint"%string, VString supportedHint);
                   ("method"%string, VString "GET");
                   ("path"%string, VString "/v1/models")]).
Proof.
  intros s r w'.
  exact (X14_not_found_echoes_path_and_method (fun _ => EmptyString) unit s r
           eq_refl eq_refl).
Defined.

(** ** The Google provider's text comparison and nil parts *)

Lemma concat_strings (t : string) (ts : list string) :
  (t ++ fold_right (fun t acc => " " ++ t ++ acc) EmptyString ts)%string
  = String.concat " " (t :: ts).
Proof.
  revert t. induction ts as [|t2 ts IH]; intros t.
  - simpl. apply append_empty_r.
  - change (String.concat " " (t :: t2 :: ts))
      with (t ++ " " ++ String.concat " " (t2 :: ts))%string.
    rewrite <- IH. reflexivity.
Qed.

Lemma joinTextPtr_S (i : nat) (parts : list (option genai.Part)) (str : string) :
  GoogleTextPtr.joinText (S i) parts str =
  if genaiPtr.hasNil parts then GoogleTextPtr.Panics
  else GoogleTextPtr.Returns
         (str ++ fold_right (fun t acc => " " ++ t ++ acc) EmptyString
                   (genaiPtr.texts parts))%string.
Proof.
  revert i str. induction parts as [|[part|] parts IH]; intros i str.
  - simpl. rewrite append_empty_r. reflexivity.
  - cbn [GoogleTextPtr.joinText Nat.ltb Nat.leb]. rewrite IH.
    cbn [genaiPtr.hasNil existsb orb genaiPtr.texts flat_map app fold_right].
    fold (genaiPtr.hasNil parts). fold (genaiPtr.texts parts).
    destruct (genaiPtr.hasNil parts); [reflexivity|].
    rewrite !append_assoc. reflexivity.
  - reflexivity.
Qed.

Lemma joinTextPtr_concat (parts : list (option genai.Part)) :
  GoogleTextPtr.joinText 0 parts EmptyString =
  if genaiPtr.hasNil parts then GoogleTextPtr.Panics
  else GoogleTextPtr.Returns (String.concat " " (genaiPtr.texts parts)).
Proof.
  destruct parts as [|[part|] parts]; try reflexivity.
  cbn [GoogleTextPtr.joinText Nat.ltb Nat.leb]. rewrite joinTextPtr_S.
  cbn [genaiPtr.hasNil existsb orb genaiPtr.texts flat_map app].
  fold (genaiPtr.hasNil parts). fold (genaiPtr.texts parts).
  destruct (genaiPtr.hasNil parts); [reflexivity|].
  cbn [String.append]. rewrite concat_strings. reflexivity.
Qed.

Lemma joinTextPtr_ofParts (i : nat) (parts : list genai.Part) (str : string) :
  GoogleTextPtr.joinText i (map Some parts) str =
  GoogleTextPtr.Returns (GoogleText.joinText i parts str).
Proof.
  revert i str. induction parts as [|part parts IH]; intros i str; [reflexivity|].
  cbn [map GoogleTextPtr.joinText GoogleText.joinText]. apply IH.
Qed.

Lemma ContentJSON_ofContent (c : genai.Content) :
  genaiPtr.ContentJSON (genaiPtr.ofContent c) = genai.ContentJSON c.
Proof.
  unfold genaiPtr.ContentJSON, genai.ContentJSON, genaiPtr.ofContent.
  cbn [genaiPtr.Parts genaiPtr.Role]. rewrite map_map.
  destruct (genai.Parts c); reflexivity.
Qed.

Lemma last_message_map {A B} (f : A -> B) (l : list A) :
  last_message (map f l) = option_map f (last_message l).
Proof.
  unfold last_message. rewrite length_map. apply nth_error_map.
Qed.

(** X15. The Google provider that compares the text itself, under
    "contains" and with parts that may be nil: a last content of another
    role is rejected before any part is read; with equal roles the call
    panics when a part of the expected or of the last content is nil; and
    otherwise it matches exactly when the space-joined text of the last
    content's parts contains that of the expected content's parts.  On
    contents without nil parts, and under every match type, it returns
    what [GoogleText.requestsMatch] returns. *)
Theorem X15_google_text_contains_and_nil_parts :
  (forall content earlier lastMessage,
      GoogleTextPtr.requestsMatch
        {| GoogleTextPtr.MatchType := MatchTypeContains;
           GoogleTextPtr.Content := content |}
        {| GoogleTextPtr.Contents := earlier ++ [lastMessage] |} =
      if negb (String.eqb (genaiPtr.Role lastMessage) (genaiPtr.Role content))
      then GoogleTextPtr.Returns false
      else if genaiPtr.hasNil (genaiPtr.Parts content)
              || genaiPtr.hasNil (genaiPtr.Parts lastMessage)
      then GoogleTextPtr.Panics
      else GoogleTextPtr.Returns
             (strings_Contains
                (String.concat " " (genaiPtr.texts (genaiPtr.Parts lastMessage)))
                (String.concat " " (genaiPtr.texts (genaiPtr.Parts content))))) /\
  (forall p expected request,
      GoogleTextPtr.requestsMatch
        {| GoogleTextPtr.MatchType := GoogleText.MatchType expected;
           GoogleTextPtr.Content := genaiPtr.ofContent (GoogleText.Content expected) |}
        {| GoogleTextPtr.Contents :=
             map genaiPtr.ofContent (GoogleText.Contents request) |} =
      GoogleTextPtr.Returns (GoogleText.requestsMatch p expected request)).
Proof.
  split.
  - intros content earlier lastMessage. unfold GoogleTextPtr.requestsMatch.
    cbn [GoogleTextPtr.Contents GoogleTextPtr.MatchType GoogleTextPtr.Content].
    rewrite (last_message_nonempty _ _ (last_message_app earlier lastMessage)).
    rewrite last_message_app.
    change (String.eqb MatchTypeContains MatchTypeExact) with false.
    change (String.eqb MatchTypeContains MatchTypeContains) with true. cbv iota.
    destruct (negb (String.eqb (genaiPtr.Role lastMessage) (genaiPtr.Role content)));
      [reflexivity|].
    rewrite !joinTextPtr_concat.
    destruct (genaiPtr.hasNil (genaiPtr.Parts content)); [reflexivity|].
    destruct (genaiPtr.hasNil (genaiPtr.Parts lastMessage)); reflexivity.
  - intros p expected request.
    unfold GoogleTextPtr.requestsMatch, GoogleText.requestsMatch.
    cbn [GoogleTextPtr.Contents GoogleTextPtr.MatchType GoogleTextPtr.Content].
    rewrite length_map, last_message_map.
    destruct (Nat.eqb (List.length (GoogleText.Contents request)) 0); [reflexivity|].
    destruct (String.eqb (GoogleText.MatchType expected) MatchTypeExact).
    + destruct (last_message (GoogleText.Contents request)) as [lastMessage|];
        [|reflexivity].
      cbn [option_map]. rewrite !ContentJSON_ofContent.
      destruct (Marshal (genai.ContentJSON (GoogleText.Content expected)));
        [|reflexivity].
      destruct (Marshal (genai.ContentJSON lastMessage)); reflexivity.
    + destruct (String.eqb (GoogleText.MatchType expected) MatchTypeContains);
        [|reflexivity].
      destruct (last_message (GoogleText.Contents request)) as [lastMessage|];
        [|reflexivity].
      cbn [option_map genaiPtr.ofContent genaiPtr.Role genaiPtr.Parts].
      destruct (negb (String.eqb (genai.Role lastMessage)
                        (genai.Role (GoogleText.Content expected)))); [reflexivity|].
      rewrite !joinTextPtr_ofParts. reflexivity.
Qed.

(** ** Containment chains *)

Lemma lookup_In (key : string) (m : list (string * Value)) (v : Value) :
  lookup key m = Some v -> In (key, v) m.
Proof.
  induction m as [|[k1 v1] m IH]; [discriminate|].
  cbn [lookup]. destruct (String.eqb key k1) eqn:E.
  - apply String.eqb_eq in E. subst k1. intros H. injection H as ->. left. reflexivity.
  - intros H. right. apply IH. exact H.
Qed.

Lemma wf_member (m : list (string * Value)) (key : string) (v : Value) :
  wf (VObject m) = true -> In (key, v) m -> wf v = true.
Proof.
  cbn [wf]. intros H Hin. apply andb_true_iff in H. destruct H as [_ H].
  rewrite forallb_forall in H. apply (H (key, v) Hin).
Qed.

Lemma wf_item (l : list Value) (v : Value) : wf (VArray l) = true -> In v l -> wf v = true.
Proof. cbn [wf]. intros H Hin. rewrite forallb_forall in H. apply H. exact Hin. Qed.

Lemma itemContains_into_object (valA : Value) (b : list (string * Value)) :
  itemContains valA (VObject b) = true ->
  exists a, valA = VObject a /\ mapContains a b = true.
Proof.
  destruct valA as [| | | |a| |]; try discriminate.
  rewrite itemContains_object. eauto.
Qed.

Lemma itemContains_into_array (valA : Value) (b : list Value) :
  itemContains valA (VArray b) = true ->
  exists a, valA = VArray a /\ sliceContains a b = true.
Proof.
  destruct valA as [| | | | |a|]; try (destruct b; discriminate).
  rewrite itemContains_array. eauto.
Qed.

Lemma sliceContains_nonempty (a b : list Value) :
  b <> [] -> sliceContains a b = true ->
  List.length a = List.length b /\ sliceItems a b = true.
Proof.
  intros Hne. unfold sliceContains. destruct b as [|y b]; [congruence|].
  destruct (Nat.eqb (List.length a) (List.length (y :: b))) eqn:E; [|discriminate].
  apply Nat.eqb_eq in E. cbn [negb]. auto.
Qed.

(** The nested comparison chains. *)
Lemma itemContains_trans (c a b : Value) :
  wf a = true -> wf b = true -> wf c = true ->
  itemContains a b = true -> itemContains b c = true -> itemContains a c = true.
Proof.
  revert a b. induction c as [|x|n|s|mc IH|lc IH|] using Value_ind';
    intros a b Ha Hb Hc Hab Hbc; try discriminate.
  - apply itemContains_null in Hbc. subst b. exact Hab.
  - apply (itemContains_scalar b (VBool x) Hb Hc I) in Hbc. subst b. exact Hab.
  - apply (itemContains_scalar b (VNumber n) Hb Hc I) in Hbc. subst b. exact Hab.
  - apply (itemContains_scalar b (VString s) Hb Hc I) in Hbc. subst b. exact Hab.
  - destruct (itemContains_into_object _ _ Hbc) as [mb [-> Hmb]].
    destruct (itemContains_into_object _ _ Hab) as [ma [-> Hma]].
    rewrite itemContains_object. apply mapContains_spec. intros key vc Hin.
    destruct (proj1 (mapContains_spec mb mc) Hmb key vc Hin) as [vb [Hlb Hvb]].
    pose proof (lookup_In _ _ _ Hlb) as Hinb.
    destruct (proj1 (mapContains_spec ma mb) Hma key vb Hinb) as [va [Hla Hva]].
    exists va. split; [exact Hla|].
    rewrite Forall_forall in IH. apply (IH (key, vc) Hin va vb).
    + apply (wf_member ma key va Ha (lookup_In _ _ _ Hla)).
    + apply (wf_member mb key vb Hb Hinb).
    + apply (wf_member mc key vc Hc Hin).
    + exact Hva.
    + exact Hvb.
  - destruct (itemContains_into_array _ _ Hbc) as [lb [-> Hlb]].
    destruct (itemContains_into_array _ _ Hab) as [la [-> Hla]].
    rewrite itemContains_array. destruct lc as [|z lc]; [reflexivity|].
    assert (Hnc : z :: lc <> []) by discriminate.
    destruct (sliceContains_nonempty lb (z :: lc) Hnc Hlb) as [Elb Hib].
    assert (Hnb : lb <> []) by (destruct lb; [discriminate Elb | discriminate]).
    destruct (sliceContains_nonempty la lb Hnb Hla) as [Ela Hia].
    unfold sliceContains.
    replace (Nat.eqb (List.length la) (List.length (z :: lc))) with true
      by (symmetry; apply Nat.eqb_eq; congruence).
    cbn [negb]. apply (sliceItems_spec la (z :: lc)); [congruence|].
    intros i va vc Hva Hvc.
    destruct (nth_error lb i) as [vb|] eqn:Hvb.
    + rewrite Forall_forall in IH.
      apply (IH vc (nth_error_In _ _ Hvc) va vb).
      * apply (wf_item la va Ha (nth_error_In _ _ Hva)).
      * apply (wf_item lb vb Hb (nth_error_In _ _ Hvb)).
      * apply (wf_item (z :: lc) vc Hc (nth_error_In _ _ Hvc)).
      * apply (proj1 (sliceItems_spec la lb Ela) Hia i va vb Hva Hvb).
      * apply (proj1 (sliceItems_spec lb (z :: lc) Elb) Hib i vb vc Hvb Hvc).
    + apply nth_error_None in Hvb.
      assert (Hi : i < List.length la) by (apply nth_error_Some; congruence).
      lia.
Qed.

(** X16. Containment of objects chains: when an expected object matches
    a message under "contains", it matches every object that message
    itself matches as an expected value, at any depth of nesting. *)
Theorem X16_object_containment_chains :
  forall expected middle actual : list (string * Value),
    wf (VObject expected) = true -> wf (VObject middle) = true ->
    wf (VObject actual) = true ->
    compareMessages MatchTypeContains (VObject expected) (VObject middle) = true ->
    compareMessages MatchTypeContains (VObject middle) (VObject actual) = true ->
    compareMessages MatchTypeContains (VObject expected) (VObject actual) = true.
Proof.
  intros expected middle actual He Hm Ha.
  destruct (wf_Marshal _ He) as [je Ee]. destruct (wf_Marshal _ Hm) as [jm Em].
  destruct (wf_Marshal _ Ha) as [ja Ea].
  rewrite (compareMessages_Contains _ _ je jm He Hm Ee Em).
  rewrite (compareMessages_Contains _ _ jm ja Hm Ha Em Ea).
  rewrite (compareMessages_Contains _ _ je ja He Ha Ee Ea).
  rewrite <- !itemContains_object. intros H1 H2.
  exact (itemContains_trans _ _ _ Ha Hm He H2 H1).
Qed.

Lemma X16_witness :
  let expected := [("role"%string, VString "user")] in
  let middle := [("content"%string, VArray [VObject [("text"%string, VString "hi")]]);
                 ("role"%string, VString "user")] in
  let actual := [("content"%string,
                  VArray [VObject [("text"%string, VString "hi");
                                   ("type"%string, VString "text")]]);
                 ("name"%string, VString "n");
                 ("role"%string, VString "user")] in
  compareMessages MatchTypeContains (VObject expected) (VObject actual) = true.
Proof.
  intros expected middle actual.
  exact (X16_object_containment_chains expected middle actual
           eq_refl eq_refl eq_refl eq_refl eq_refl).
Defined.
